(** * Raster comparison core of the SAR RTC evaluation scripts

    A shallow embedding of the loading, alignment, offset-search and
    metric functions of [_data_utils.py], [_analyze.py],
    [_analyze_extended.py] and [_analyze_lia.py].

    Array cells are IEEE-style values: a finite number, one of the two
    infinities, or NaN (the "undefined" / "missing" sentinel).  The finite
    numbers are kept behind an interface ([FloatOps]) so that everything
    that only depends on the control flow of the scripts is proved for
    every implementation of the arithmetic; two implementations are
    given, the canonical rationals [Qc] (executable) and the real
    numbers [R] (exact square roots). *)

From Stdlib Require Import ZArith QArith Qcanon Qround Reals Lra Lia List Bool String Sorted.
From stdpp Require Import gmap strings.
Import ListNotations.

Set Implicit Arguments.
Open Scope Z_scope.

(** ** Finite arithmetic *)

Class FloatOps (F : Type) := {
  f_of_Z : Z -> F;
  f_add : F -> F -> F;
  f_sub : F -> F -> F;
  f_mul : F -> F -> F;
  f_div : F -> F -> F;
  f_opp : F -> F;
  f_abs : F -> F;
  f_sqrt : F -> F;
  f_ltb : F -> F -> bool;
  f_eqb : F -> F -> bool
}.

Definition f_of_nat {F} `{FloatOps F} (n : nat) : F := f_of_Z (Z.of_nat n).
Definition f_leb {F} `{FloatOps F} (x y : F) : bool := f_ltb x y || f_eqb x y.

(** The algebraic facts used by the symmetry results. *)
Class FloatRing (F : Type) `{FloatOps F} : Prop := {
  f_mul_comm : forall x y : F, f_mul x y = f_mul y x;
  f_sub_opp : forall x y : F, f_opp (f_sub x y) = f_sub y x;
  f_opp_add : forall x y : F, f_opp (f_add x y) = f_add (f_opp x) (f_opp y);
  f_opp_zero : f_opp (f_of_Z 0) = f_of_Z 0;
  f_opp_opp : forall x : F, f_opp (f_opp x) = x;
  f_opp_div : forall x y : F, f_opp (f_div x y) = f_div (f_opp x) y;
  f_sq_opp : forall x : F, f_mul (f_opp x) (f_opp x) = f_mul x x
}.

Arguments FloatRing F {_}.

(** The order facts used by the offset search. *)
Class FloatOrder (F : Type) `{FloatOps F} : Prop := {
  f_ltb_irrefl : forall x : F, f_ltb x x = false;
  f_ltb_trans : forall x y z : F,
      f_ltb x y = true -> f_ltb y z = true -> f_ltb x z = true;
  f_ltb_total : forall x y : F,
      f_ltb x y = false -> f_ltb y x = false -> x = y;
  f_eqb_eq : forall x y : F, f_eqb x y = true -> x = y;
  f_eqb_refl : forall x : F, f_eqb x x = true;
  f_ltb_of_Z : forall a b : Z, f_ltb (f_of_Z a) (f_of_Z b) = (a <? b)
}.

Arguments FloatOrder F {_}.

(** ** Array cells *)

Inductive fval (F : Type) : Type :=
| Fin (x : F)
| PInf
| NInf
| NaN.
Arguments PInf {F}.
Arguments NInf {F}.
Arguments NaN {F}.

Section Cells.
Context {F : Type} `{FloatOps F}.

(** [np.isfinite] *)
Definition isfinite (v : fval F) : bool :=
  match v with Fin _ => true | _ => false end.

Definition fin_val (v : fval F) : F :=
  match v with Fin x => x | _ => f_of_Z 0 end.

Definition fv_opp (v : fval F) : fval F :=
  match v with
  | Fin x => Fin (f_opp x)
  | PInf => NInf
  | NInf => PInf
  | NaN => NaN
  end.

(** [a < b]; every comparison with NaN is false. *)
Definition fv_ltb (a b : fval F) : bool :=
  match a, b with
  | Fin x, Fin y => f_ltb x y
  | Fin _, PInf => true
  | NInf, Fin _ => true
  | NInf, PInf => true
  | _, _ => false
  end.

(** [a <= b] *)
Definition fv_leb (a b : fval F) : bool :=
  match a, b with
  | Fin x, Fin y => f_leb x y
  | Fin _, PInf => true
  | NInf, Fin _ => true
  | NInf, NInf => true
  | NInf, PInf => true
  | PInf, PInf => true
  | _, _ => false
  end.

Definition sign_neg (x : F) : bool := f_ltb x (f_of_Z 0).

(** [a / b] with the IEEE results for a zero or infinite operand. *)
Definition fv_div (a b : fval F) : fval F :=
  match a, b with
  | NaN, _ | _, NaN => NaN
  | Fin x, Fin y =>
      if f_eqb y (f_of_Z 0) then
        if f_eqb x (f_of_Z 0) then NaN
        else if sign_neg x then NInf else PInf
      else Fin (f_div x y)
  | Fin _, _ => Fin (f_of_Z 0)
  | PInf, Fin y => if sign_neg y then NInf else PInf
  | NInf, Fin y => if sign_neg y then PInf else NInf
  | _, _ => NaN
  end.

(** [a * b] *)
Definition fv_mul (a b : fval F) : fval F :=
  match a, b with
  | NaN, _ | _, NaN => NaN
  | Fin x, Fin y => Fin (f_mul x y)
  | Fin x, PInf | PInf, Fin x =>
      if f_eqb x (f_of_Z 0) then NaN else if sign_neg x then NInf else PInf
  | Fin x, NInf | NInf, Fin x =>
      if f_eqb x (f_of_Z 0) then NaN else if sign_neg x then PInf else NInf
  | PInf, PInf | NInf, NInf => PInf
  | PInf, NInf | NInf, PInf => NInf
  end.

(** [np.clip(v, lo, hi)], that is [minimum(maximum(v, lo), hi)]. *)
Definition fv_clip (lo hi : F) (v : fval F) : fval F :=
  match v with
  | NaN => NaN
  | PInf => Fin hi
  | NInf => Fin lo
  | Fin x => if f_ltb x lo then Fin lo
             else if f_ltb hi x then Fin hi else Fin x
  end.
End Cells.

(** ** Arrays *)

(** A two-dimensional array is the list of its rows. *)
Definition grid (F : Type) : Type := list (list (fval F)).

Section Arrays.
Context {F : Type} `{FloatOps F}.

Definition shape (g : grid F) : nat * nat :=
  (length g, length (hd [] g)).

(** [a.flatten()]: the cells in row-major order. *)
Definition flatten (g : grid F) : list (fval F) := concat g.

(** [mask.sum()] *)
Definition count (mask : list bool) : nat :=
  length (List.filter (fun b : bool => b) mask).

(** [a[mask]]: boolean-mask indexing. *)
Definition select {A : Type} (mask : list bool) (l : list A) : list A :=
  map snd (List.filter (fun p : bool * A => fst p) (combine mask l)).

(** [m1 & m2] *)
Definition mask_and (m1 m2 : list bool) : list bool :=
  map (fun p : bool * bool => fst p && snd p) (combine m1 m2).

(** [data[np.isfinite(data)]], as finite numbers. *)
Definition finite_of (data : grid F) : list F :=
  map fin_val (select (map isfinite (flatten data)) (flatten data)).

(** [np.isfinite(data1) & np.isfinite(data2)] *)
Definition joint_mask (data1 data2 : grid F) : list bool :=
  mask_and (map isfinite (flatten data1)) (map isfinite (flatten data2)).

(** [data[mask]] for a mask that implies finiteness. *)
Definition masked (data : grid F) (mask : list bool) : list F :=
  map fin_val (select mask (flatten data)).

Definition f_sum (l : list F) : F := fold_left f_add l (f_of_Z 0).

Definition f_mean (l : list F) : F := f_div (f_sum l) (f_of_nat (length l)).

Definition f_sq (x : F) : F := f_mul x x.

Definition f_var (l : list F) : F :=
  f_mean (map (fun x => f_sq (f_sub x (f_mean l))) l).

Definition f_std (l : list F) : F := f_sqrt (f_var l).

(** [np.mean], [np.std] (population, [ddof = 0]); NaN on an empty array. *)
Definition np_mean (l : list F) : fval F :=
  match l with [] => NaN | _ => Fin (f_mean l) end.

Definition np_std (l : list F) : fval F :=
  match l with [] => NaN | _ => Fin (f_std l) end.

(** Element-wise [a - b] of two one-dimensional arrays of equal length. *)
Definition sub_arrays (a b : list F) : list F :=
  map (fun p : F * F => f_sub (fst p) (snd p)) (combine a b).
End Arrays.

(** ** [_analyze.py]: univariate and pairwise metrics *)

Record stats (F : Type) : Type := Stats {
  st_mean : fval F;
  st_std : fval F;
  st_cv : fval F;
  st_n : nat
}.

Section Analyze.
Context {F : Type} `{FloatOps F}.

Definition calculate_cv (data : grid F) : fval F :=
  let valid := finite_of data in
  if (length valid =? 0)%nat then NaN
  else fv_mul (fv_div (np_std valid)
                      (Fin (f_abs (f_mean valid))))
              (Fin (f_of_Z 100)).

Definition calculate_stats (data : grid F) : stats F :=
  let valid := finite_of data in
  if (length valid =? 0)%nat then
    {| st_mean := NaN; st_std := NaN; st_cv := NaN; st_n := 0 |}
  else
    {| st_mean := np_mean valid;
       st_std := np_std valid;
       st_cv := calculate_cv data;
       st_n := length valid |}.

Definition calculate_rmse (data1 data2 : grid F) : fval F :=
  let mask := joint_mask data1 data2 in
  if (count mask =? 0)%nat then NaN
  else
    let diff := sub_arrays (masked data1 mask) (masked data2 mask) in
    match np_mean (map f_sq diff) with
    | Fin m => Fin (f_sqrt m)
    | v => v
    end.

Definition calculate_bias (data1 data2 : grid F) : fval F :=
  let mask := joint_mask data1 data2 in
  if (count mask =? 0)%nat then NaN
  else np_mean (sub_arrays (masked data1 mask) (masked data2 mask)).

(** [(x == x[0]).all()] *)
Definition is_constant (x : list F) : bool :=
  match x with
  | [] => true
  | x0 :: _ => forallb (fun v => f_eqb v x0) x
  end.

Definition centered (x : list F) : list F :=
  map (fun v => f_sub v (f_mean x)) x.

(** [np.linalg.norm] *)
Definition f_norm (x : list F) : F := f_sqrt (f_sum (map f_sq x)).

(** [np.dot] *)
Definition f_dot (x y : list F) : F :=
  f_sum (map (fun p : F * F => f_mul (fst p) (snd p)) (combine x y)).

(** The coefficient returned by [scipy.stats.pearsonr]: NaN on a
    constant input, otherwise the normalised dot product of the centred
    samples, clamped to [-1, 1].  The callers below only pass at least
    three samples, so the library's two special cases for shorter
    inputs are never reached. *)
Definition pearsonr_r (x y : list F) : fval F :=
  if is_constant x || is_constant y then NaN
  else
    let xm := centered x in
    let ym := centered y in
    let r := f_dot (map (fun v => f_div v (f_norm xm)) xm)
                   (map (fun v => f_div v (f_norm ym)) ym) in
    fv_clip (f_of_Z (-1)) (f_of_Z 1) (Fin r).

(** The two-sided significance of [pearsonr] is a function of the
    coefficient and the sample size; it is left as a parameter. *)
Variable pearsonr_p : fval F -> nat -> fval F.

Definition pearsonr (x y : list F) : fval F * fval F :=
  let r := pearsonr_r x y in (r, pearsonr_p r (length x)).

Definition calculate_correlation (data1 data2 : grid F) : fval F * fval F :=
  let mask := joint_mask data1 data2 in
  if (count mask <? 3)%nat then (NaN, NaN)
  else pearsonr (masked data1 mask) (masked data2 mask).
End Analyze.

(** ** [_analyze_extended.py]: thresholded pairwise metrics *)

Section Extended.
Context {F : Type} `{FloatOps F}.

Definition calc_rmse (test ref : grid F) : fval F :=
  let valid := joint_mask test ref in
  if (count valid <? 10)%nat then NaN
  else
    let d := sub_arrays (masked test valid) (masked ref valid) in
    match np_mean (map f_sq d) with
    | Fin m => Fin (f_sqrt m)
    | v => v
    end.

Definition calc_r2 (test ref : grid F) : fval F :=
  let valid := joint_mask test ref in
  if (count valid <? 10)%nat then NaN
  else
    let r := pearsonr_r (masked test valid) (masked ref valid) in
    fv_mul r r.
End Extended.


(** ** [_analyze_lia.py]: offset search and incidence-angle regression *)

(** An array whose non-finite cells have been overwritten has finite cells
    only. *)
Definition fgrid (F : Type) : Type := list (list F).

Section Lia.
Context {F : Type} `{FloatOps F}.

(** [a[~np.isfinite(a)] = 0] *)
Definition zero_nonfinite (a : grid F) : fgrid F :=
  map (map (fun v : fval F => if isfinite v then fin_val v else f_of_Z 0)) a.

(** [1e-6] *)
Definition eps_std : F := f_div (f_of_Z 1) (f_of_Z 1000000).

(** [(a - a.mean()) / a.std()] *)
Definition zscore (a : fgrid F) : fgrid F :=
  map (map (fun x => f_div (f_sub x (f_mean (concat a))) (f_std (concat a)))) a.

(** [range(lo, hi)] *)
Definition zrange (lo hi : Z) : list Z :=
  map (fun k => lo + Z.of_nat k) (seq 0 (Z.to_nat (hi - lo))).

(** The shifts in the order the two nested loops visit them. *)
Definition scan_order (max_shift : Z) : list (Z * Z) :=
  flat_map (fun dy => map (fun dx => (dy, dx))
                          (zrange (- max_shift) (max_shift + 1)))
           (zrange (- max_shift) (max_shift + 1)).

(** The cell [(i, j)] of an array, or [fill] outside the frame. *)
Definition cell_at {A : Type} (fill : A) (a : list (list A)) (i j : Z) : A :=
  if (0 <=? i) && (0 <=? j)
  then nth (Z.to_nat j) (nth (Z.to_nat i) a []) fill
  else fill.

(** A shift by whole pixels: the output cell [(i, j)] is the input cell
    [(i - dy, j - dx)], and [fill] where that falls outside the frame. *)
Definition shift_cells {A : Type} (fill : A) (a : list (list A)) (dy dx : Z)
  : list (list A) :=
  map (fun i =>
         map (fun j => cell_at fill a (Z.of_nat i - dy) (Z.of_nat j - dx))
             (seq 0 (length (hd [] a))))
      (seq 0 (length a)).

(** [ndimage.shift(a, (dy, dx), order=0, mode='constant')]: nearest
    neighbour on whole-pixel shifts, constant fill 0. *)
Definition ndimage_shift (a : fgrid F) (dy dx : Z) : fgrid F :=
  shift_cells (f_of_Z 0) a dy dx.

Definition nonzero (x : F) : bool := negb (f_eqb x (f_of_Z 0)).

(** [(ref != 0) & (shifted != 0)] *)
Definition overlap_mask (ref shifted : fgrid F) : list bool :=
  mask_and (map nonzero (concat ref)) (map nonzero (concat shifted)).

(** [np.cov(x, y)[0, 1]] with the default [ddof = 1]. *)
Definition cov1 (x y : list F) : F :=
  f_mul (f_dot (centered x) (centered y))
        (f_div (f_of_Z 1) (f_of_Z (Z.of_nat (length x) - 1))).

(** [np.corrcoef(x, y)[0, 1]] *)
Definition corrcoef (x y : list F) : fval F :=
  fv_clip (f_of_Z (-1)) (f_of_Z 1)
    (fv_div (fv_div (Fin (cov1 x y)) (Fin (f_sqrt (cov1 x x))))
            (Fin (f_sqrt (cov1 y y)))).

(** The state of the search: the best correlation with its shift, and
    the list of shifts handed to [ndimage.shift] so far (a ghost log,
    most recent last). *)
Definition search_state : Type := (fval F * (Z * Z)) * list (Z * Z).

(** What one candidate contributes: nothing when the 50-pixel gate
    fails, otherwise its correlation. *)
Definition candidate_score (ref test : fgrid F) (c : Z * Z) : option (fval F) :=
  let shifted := ndimage_shift test (fst c) (snd c) in
  let valid := overlap_mask ref shifted in
  if (50 <=? count valid)%nat
  then Some (corrcoef (select valid (concat ref))
                      (select valid (concat shifted)))
  else None.

(** One iteration of the inner loop body. *)
Definition offset_step (ref test : fgrid F) (st : search_state) (c : Z * Z)
  : search_state :=
  let best := fst st in
  let best' :=
    match candidate_score ref test c with
    | Some corr => if fv_ltb (fst best) corr then (corr, c) else best
    | None => best
    end in
  (best', snd st ++ [c]).

Definition find_offset_run (ref test : grid F) (max_shift : Z)
  : (Z * Z) * list (Z * Z) :=
  let ref0 := zero_nonfinite ref in
  let test0 := zero_nonfinite test in
  if fv_ltb (np_std (concat ref0)) (Fin eps_std)
     || fv_ltb (np_std (concat test0)) (Fin eps_std)
  then ((0, 0), [])
  else
    let refz := zscore ref0 in
    let testz := zscore test0 in
    let st := fold_left (offset_step refz testz) (scan_order max_shift)
                        ((Fin (f_of_Z (-999)), (0, 0)), []) in
    (snd (fst st), snd st).

Definition find_offset (ref test : grid F) (max_shift : Z) : Z * Z :=
  fst (find_offset_run ref test max_shift).

(** [np.cov(x, y, bias=1)] entries. *)
Definition cov0 (x y : list F) : F :=
  f_mul (f_dot (centered x) (centered y))
        (f_div (f_of_Z 1) (f_of_nat (length x))).

(** [scipy.stats.linregress(x, y)]: slope, intercept and correlation
    coefficient; [None] stands for the [ValueError] raised when all [x]
    are identical. *)
Definition linregress (x y : list F) : option (F * F * F) :=
  if is_constant x then None
  else
    let ssxm := cov0 x x in
    let ssxym := cov0 x y in
    let ssym := cov0 y y in
    let r :=
      if f_eqb ssxm (f_of_Z 0) || f_eqb ssym (f_of_Z 0) then f_of_Z 0
      else fin_val (fv_clip (f_of_Z (-1)) (f_of_Z 1)
                            (Fin (f_div ssxym (f_sqrt (f_mul ssxm ssym))))) in
    let slope := f_div ssxym ssxm in
    let intercept := f_sub (f_mean y) (f_mul slope (f_mean x)) in
    Some (slope, intercept, r).
End Lia.

(** The values stored in the dictionary that [calc_slope] returns. *)
Inductive pyval (F : Type) : Type :=
| VFloat (v : fval F)
| VInt (n : Z)
| VArray (a : list F).
Arguments VInt {F}.

Section Slope.
Context {F : Type} `{FloatOps F}.

(** The sample filter of [calc_slope]. *)
Definition slope_mask (bs_f lia_f : list (fval F)) : list bool :=
  let c (z : Z) : fval F := Fin (f_of_Z z) in
  mask_and
    (mask_and
       (mask_and
          (mask_and
             (mask_and (map isfinite bs_f) (map isfinite lia_f))
             (map (fun l => fv_leb (c 15) l) lia_f))
          (map (fun l => fv_leb l (c 60)) lia_f))
       (map (fun b => fv_ltb (c (-40)) b) bs_f))
    (map (fun b => fv_ltb b (c 5)) bs_f).

(** [calc_slope(bs, lia)]; the outer [None] is the exception escaping
    from [linregress]. *)
Definition calc_slope (bs lia : option (grid F))
  : option (gmap string (pyval F)) :=
  match bs, lia with
  | Some bs, Some lia =>
      let bs_f := flatten bs in
      let lia_f := flatten lia in
      let valid := slope_mask bs_f lia_f in
      if (count valid <? 20)%nat then
        Some (<["slope" := VFloat NaN]>
              (<["r2" := VFloat NaN]>
               (<["n" := VInt (Z.of_nat (count valid))]> ∅)))
      else
        let x := map fin_val (select valid lia_f) in
        let y := map fin_val (select valid bs_f) in
        match linregress x y with
        | Some (slope, intercept, r) =>
            Some (<["slope" := VFloat (Fin slope)]>
                  (<["intercept" := VFloat (Fin intercept)]>
                   (<["r2" := VFloat (Fin (f_mul r r))]>
                    (<["n" := VInt (Z.of_nat (count valid))]>
                     (<["_lia" := VArray x]>
                      (<["_bs" := VArray y]> ∅))))))
        | None => None
        end
  | _, _ =>
      Some (<["slope" := VFloat NaN]>
            (<["r2" := VFloat NaN]>
             (<["n" := VInt 0]> ∅)))
  end.
End Slope.


(** ** [_data_utils.py]: loading and alignment *)

(** Polarisation; the callers pass ['vv'] or ['vh']. *)
Inductive pol : Type := VV | VH.

(** [pol] as it is passed, [pol.upper()] and [pol.upper()[1]]. *)
Definition pol_str (p : pol) : string :=
  match p with VV => "vv" | VH => "vh" end.

Definition pol_upper (p : pol) : string :=
  match p with VV => "VV" | VH => "VH" end.

Definition pol_upper_1 (p : pol) : string :=
  match p with VV => "V" | VH => "H" end.

(** [a / b] on paths. *)
Definition path_join (a b : string) : string := a +:+ "/" +:+ b.

(** Python's [round] on an exact rational: to the nearest integer, ties to
    the even one. *)
Definition round_half_even (q : Qc) : Z :=
  let f := Qfloor q in
  match (q - Q2Qc (inject_Z f) ?= Q2Qc (1 # 2))%Qc with
  | Lt => f
  | Gt => f + 1
  | Eq => if Z.even f then f else f + 1
  end.

Definition Qc_of_nat (n : nat) : Qc := Q2Qc (inject_Z (Z.of_nat n)).

(** A dictionary in insertion order: assignment to a present key
    replaces its value in place, to a new key appends. *)
Fixpoint dict_set {V : Type} (k : string) (v : V) (d : list (string * V))
  : list (string * V) :=
  match d with
  | [] => [(k, v)]
  | (k', v') :: t =>
      if String.eqb k k' then (k, v) :: t else (k', v') :: dict_set k v t
  end.

Fixpoint dict_get {V : Type} (k : string) (d : list (string * V)) : option V :=
  match d with
  | [] => None
  | (k', v') :: t => if String.eqb k k' then Some v' else dict_get k t
  end.

Definition shape_eqb (s1 s2 : nat * nat) : bool :=
  (fst s1 =? fst s2)%nat && (snd s1 =? snd s2)%nat.

(** [METHODS[key]['name']] of [_config.py]. *)
Definition METHODS : list (string * string) :=
  [ ("hyp3_gamma", "HyP3 GAMMA (Cop. 30m)");
    ("pyrosar_kartverket", "PyroSAR/SNAP (Kart. 10m)");
    ("pyrosar_copernicus", "PyroSAR/SNAP (Cop. 30m)");
    ("gee_s1ard_kartverket", "GEE s1_ard (Kart. 10m)");
    ("gee_s1ard_copernicus", "GEE s1_ard (Cop. 30m)");
    ("gee_standard", "GEE Standard GRD") ].

Definition method_name (key : string) : string :=
  match dict_get key METHODS with Some n => n | None => "" end.

Section DataUtils.
Context {F : Type} `{FloatOps F}.

(** The affine transform of a raster is carried along, never inspected. *)
Variable affine : Type.

(** What [rasterio.open(path)] gives: the first band and the transform. *)
Record raster : Type := Raster {
  band : grid F;
  transform : affine
}.

(** The part of the file system the loader reads: the raster stored at a
    path ([None] when the path does not exist) and [Path.glob]. *)
Record filesystem : Type := FileSystem {
  fs_open : string -> option raster;
  fs_glob : string -> string -> list string
}.

Definition path_exists (fs : filesystem) (p : string) : bool :=
  match fs_open fs p with Some _ => true | None => false end.

(** [.astype(np.float32)] on one cell. *)
Variable astype_float32 : fval F -> fval F.

(** [np.log10] on a positive finite number. *)
Variable log10 : F -> F.

(** [10 * np.log10(v)] on one cell. *)
Definition to_db (v : fval F) : fval F :=
  match v with
  | Fin x =>
      if f_eqb x (f_of_Z 0) then NInf
      else if f_ltb x (f_of_Z 0) then NaN
      else Fin (f_mul (f_of_Z 10) (log10 x))
  | PInf => PInf
  | NInf => NaN
  | NaN => NaN
  end.

(** [data[data <= 0] = np.nan] on one cell. *)
Definition mask_invalid (v : fval F) : fval F :=
  if fv_leb v (Fin (f_of_Z 0)) then NaN else v.

Definition load_raster (fs : filesystem) (path : option string) (as_db : bool)
  : option (grid F) * option affine :=
  match path with
  | None => (None, None)
  | Some p =>
      match fs_open fs p with
      | None => (None, None)
      | Some src =>
          let data := map (map astype_float32) (band src) in
          let data := map (map mask_invalid) data in
          let data := if as_db then map (map to_db) data else data in
          (Some data, Some (transform src))
      end
  end.

(** The directories of [_config.py], below the working directory. *)
Variable BASE_DIR : string.
Definition MULTITEMP_DIR : string :=
  path_join (path_join BASE_DIR "data") "multitemporal".
Definition MULTITEMP_HYP3_DIR : string := path_join MULTITEMP_DIR "hyp3".
Definition MULTITEMP_GEE_DIR : string := path_join MULTITEMP_DIR "gee".
Definition MULTITEMP_PYROSAR_KART_DIR : string :=
  path_join MULTITEMP_DIR "pyrosar_kartverket".
Definition MULTITEMP_PYROSAR_COP_DIR : string :=
  path_join MULTITEMP_DIR "pyrosar_copernicus".

Definition find_pyrosar_file (fs : filesystem) (date_str aoi_key : string)
           (p : pol) (dem_type : string) : option string :=
  let base := if String.eqb dem_type "kartverket"
              then MULTITEMP_PYROSAR_KART_DIR
              else MULTITEMP_PYROSAR_COP_DIR in
  let target_dir := path_join (path_join base date_str) aoi_key in
  let cropped_path :=
    path_join target_dir
      (aoi_key +:+ "_V" +:+ pol_upper_1 p +:+ "_gamma0-rtc_cropped.tif") in
  if path_exists fs cropped_path then Some cropped_path
  else
    let alt_path :=
      path_join target_dir
        (aoi_key +:+ "_" +:+ pol_upper p +:+ "_gamma0-rtc_cropped.tif") in
    if path_exists fs alt_path then Some alt_path
    else
      match fs_glob fs target_dir ("*" +:+ pol_upper p +:+ "*cropped*.tif") with
      | m :: _ => Some m
      | [] =>
          match fs_glob fs target_dir
                        ("*_" +:+ pol_upper p +:+ "_gamma0-rtc.tif") with
          | m :: _ => Some m
          | [] => None
          end
      end.

(** The value order-1 interpolation puts at an output cell; only the
    shape of the result matters below. *)
Variable zoom_value : grid F -> Qc * Qc -> nat -> nat -> fval F.

(** [int(round(n * factor))], the length of an output axis of [zoom]. *)
Definition zoom_len (n : nat) (factor : Qc) : nat :=
  Z.to_nat (round_half_even (Qc_of_nat n * factor)%Qc).

(** [scipy.ndimage.zoom(data, factors, order=1)] *)
Definition zoom (data : grid F) (factors : Qc * Qc) : grid F :=
  map (fun i =>
         map (fun j => zoom_value data factors i j)
             (seq 0 (zoom_len (snd (shape data)) (snd factors))))
      (seq 0 (zoom_len (fst (shape data)) (fst factors))).

(** The local variables of [load_all_methods]. *)
Record load_state : Type := LoadState {
  data_dict : list (string * grid F);
  ref_transform : option affine;
  ref_shape : option (nat * nat)
}.

Definition load_hyp3 (fs : filesystem) (date_str aoi_key : string) (p : pol)
           (as_db : bool) (st : load_state) : load_state :=
  let hyp3_path :=
    path_join (path_join MULTITEMP_HYP3_DIR date_str)
              (aoi_key +:+ "_hyp3_" +:+ pol_str p +:+ ".tif") in
  if path_exists fs hyp3_path then
    match load_raster fs (Some hyp3_path) as_db with
    | (Some data, tr) =>
        {| data_dict := dict_set "hyp3_gamma" data (data_dict st);
           ref_transform := tr;
           ref_shape := Some (shape data) |}
    | (None, _) => st
    end
  else st.

Definition gee_methods (aoi_key : string) (p : pol) : list (string * string) :=
  [ ("gee_s1ard_kartverket",
     aoi_key +:+ "_s1ard_kartverket_" +:+ pol_str p +:+ ".tif");
    ("gee_s1ard_copernicus",
     aoi_key +:+ "_s1ard_copernicus_" +:+ pol_str p +:+ ".tif");
    ("gee_standard", aoi_key +:+ "_standard_" +:+ pol_str p +:+ ".tif") ].

Definition load_gee (fs : filesystem) (date_str : string) (as_db : bool)
           (st : load_state) (m : string * string) : load_state :=
  let path := path_join (path_join MULTITEMP_GEE_DIR date_str) (snd m) in
  if path_exists fs path then
    match load_raster fs (Some path) as_db with
    | (Some data, _) =>
        {| data_dict := dict_set (fst m) data (data_dict st);
           ref_transform := ref_transform st;
           ref_shape := match ref_shape st with
                        | None => Some (shape data)
                        | Some s => Some s
                        end |}
    | (None, _) => st
    end
  else st.

Definition pyrosar_methods : list (string * string) :=
  [ ("kartverket", "pyrosar_kartverket");
    ("copernicus", "pyrosar_copernicus") ].

Definition load_pyrosar (fs : filesystem) (date_str aoi_key : string) (p : pol)
           (as_db : bool) (st : load_state) (m : string * string)
  : load_state :=
  match find_pyrosar_file fs date_str aoi_key p (fst m) with
  | Some path =>
      if path_exists fs path then
        match load_raster fs (Some path) as_db with
        | (Some data, _) =>
            let data :=
              match ref_shape st with
              | Some rs =>
                  if negb (shape_eqb (shape data) rs) then
                    zoom data
                         ((Qc_of_nat (fst rs) / Qc_of_nat (fst (shape data)))%Qc,
                          (Qc_of_nat (snd rs) / Qc_of_nat (snd (shape data)))%Qc)
                  else data
              | None => data
              end in
            {| data_dict := dict_set (snd m) data (data_dict st);
               ref_transform := ref_transform st;
               ref_shape := ref_shape st |}
        | (None, _) => st
        end
      else st
  | None => st
  end.

(** The state at the [return] of [load_all_methods]. *)
Definition load_all_state (fs : filesystem) (date_str aoi_key : string)
           (p : pol) (as_db : bool) : load_state :=
  let st := {| data_dict := []; ref_transform := None; ref_shape := None |} in
  let st := load_hyp3 fs date_str aoi_key p as_db st in
  let st := fold_left (load_gee fs date_str as_db) (gee_methods aoi_key p) st in
  fold_left (load_pyrosar fs date_str aoi_key p as_db) pyrosar_methods st.

Definition load_all_methods (fs : filesystem) (date_str aoi_key : string)
           (p : pol) (as_db : bool)
  : list (string * grid F) * option affine :=
  let st := load_all_state fs date_str aoi_key p as_db in
  (data_dict st, ref_transform st).

(** *** [_analyze.py]: the per-unit drivers *)

Record stats_row : Type := StatsRow {
  sr_date : string;
  sr_aoi : string;
  sr_pol : string;
  sr_method : string;
  sr_method_name : string;
  sr_stats : stats F
}.

Definition analyze_single_date (fs : filesystem) (date_str aoi_key : string)
           (p : pol) : option (list stats_row) :=
  let data_dict := fst (load_all_methods fs date_str aoi_key p true) in
  match data_dict with
  | [] => None
  | _ =>
      Some (map (fun kv : string * grid F =>
                   {| sr_date := date_str;
                      sr_aoi := aoi_key;
                      sr_pol := pol_str p;
                      sr_method := fst kv;
                      sr_method_name := method_name (fst kv);
                      sr_stats := calculate_stats (snd kv) |})
                data_dict)
  end.

Record comparison_row : Type := ComparisonRow {
  cr_date : string;
  cr_aoi : string;
  cr_pol : string;
  cr_method : string;
  cr_method_name : string;
  cr_ref : string;
  cr_rmse : fval F;
  cr_bias : fval F;
  cr_r : fval F;
  cr_p : fval F
}.

Variable pearsonr_p : fval F -> nat -> fval F.

(** The rows [analyze_inter_product] appends, for one dictionary. *)
Definition comparison_rows (date_str aoi_key : string) (p : pol)
           (ref_method : string) (ref_data : grid F)
           (data_dict : list (string * grid F)) : list comparison_row :=
  flat_map
    (fun kv : string * grid F =>
       if String.eqb (fst kv) ref_method then []
       else if negb (shape_eqb (shape (snd kv)) (shape ref_data)) then []
       else
         let rp := calculate_correlation pearsonr_p (snd kv) ref_data in
         [ {| cr_date := date_str;
              cr_aoi := aoi_key;
              cr_pol := pol_str p;
              cr_method := fst kv;
              cr_method_name := method_name (fst kv);
              cr_ref := ref_method;
              cr_rmse := calculate_rmse (snd kv) ref_data;
              cr_bias := calculate_bias (snd kv) ref_data;
              cr_r := fst rp;
              cr_p := snd rp |} ])
    data_dict.

Definition analyze_inter_product (fs : filesystem) (date_str aoi_key : string)
           (p : pol) (ref_method : string) : option (list comparison_row) :=
  let data_dict := fst (load_all_methods fs date_str aoi_key p true) in
  match data_dict with
  | [] => None
  | _ =>
      match dict_get ref_method data_dict with
      | None => None
      | Some ref_data =>
          match comparison_rows date_str aoi_key p ref_method ref_data
                                data_dict with
          | [] => None
          | rows => Some rows
          end
      end
  end.
End DataUtils.


(** ** Two implementations of the arithmetic *)

(** Canonical rationals: exact field operations, and a square root
    truncated to six decimal places (exact on squares of such numbers). *)
Definition Qc_of_Z (z : Z) : Qc := Q2Qc (inject_Z z).

Definition Qc_ltb (x y : Qc) : bool :=
  match (x ?= y)%Qc with Lt => true | _ => false end.

Definition Qc_eqb (x y : Qc) : bool :=
  match (x ?= y)%Qc with Eq => true | _ => false end.

Definition Qc_abs (x : Qc) : Qc :=
  if Qc_ltb x (Qc_of_Z 0) then (- x)%Qc else x.

Definition Qc_sqrt (x : Qc) : Qc :=
  Q2Qc (Z.sqrt (Qnum x * Zpos (Qden x) * 1000000000000)
        # (Qden x * 1000000)).

#[export] Instance Qc_ops : FloatOps Qc := {|
  f_of_Z := Qc_of_Z;
  f_add := Qcplus;
  f_sub := Qcminus;
  f_mul := Qcmult;
  f_div := Qcdiv;
  f_opp := Qcopp;
  f_abs := Qc_abs;
  f_sqrt := Qc_sqrt;
  f_ltb := Qc_ltb;
  f_eqb := Qc_eqb
|}.

(** Real numbers: exact arithmetic throughout. *)
Definition R_ltb (x y : R) : bool := if Rlt_dec x y then true else false.

Definition R_eqb (x y : R) : bool := if Req_dec_T x y then true else false.

#[export] Instance R_ops : FloatOps R := {|
  f_of_Z := IZR;
  f_add := Rplus;
  f_sub := Rminus;
  f_mul := Rmult;
  f_div := Rdiv;
  f_opp := Ropp;
  f_abs := Rabs;
  f_sqrt := sqrt;
  f_ltb := R_ltb;
  f_eqb := R_eqb
|}.

(** ** Definitions following the wording of the specification *)

Section SpecWords.
Context {F : Type} `{FloatOps F}.

(** The valid entries of a grid: its finite cells, in row-major order. *)
Definition valid_entries (data : grid F) : list F :=
  flat_map (fun v : fval F => match v with Fin x => [x] | _ => [] end)
           (flatten data).

(** [stats(grid)]: population mean and standard deviation over the valid
    entries, [cv = std / |mean| * 100], and every field but [n] undefined
    when there is no valid entry. *)
Definition spec_stats (valid : list F) : stats F :=
  match valid with
  | [] => {| st_mean := NaN; st_std := NaN; st_cv := NaN; st_n := 0 |}
  | _ =>
      let mean := f_div (f_sum valid) (f_of_nat (length valid)) in
      let std :=
        f_sqrt (f_div (f_sum (map (fun x => f_mul (f_sub x mean) (f_sub x mean))
                                  valid))
                      (f_of_nat (length valid))) in
      {| st_mean := Fin mean;
         st_std := Fin std;
         st_cv := fv_mul (fv_div (Fin std) (Fin (f_abs mean)))
                         (Fin (f_of_Z 100));
         st_n := length valid |}
  end.

(** [lia_slope] keeps a sample when both numbers are finite, the angle
    lies in [15, 60] and the backscatter lies strictly between -40 and 5. *)
Definition spec_keep_sample (s : fval F * fval F) : bool :=
  let bs := fst s in
  let lia := snd s in
  isfinite bs && isfinite lia
  && fv_leb (Fin (f_of_Z 15)) lia && fv_leb lia (Fin (f_of_Z 60))
  && fv_ltb (Fin (f_of_Z (-40))) bs && fv_ltb bs (Fin (f_of_Z 5)).
(** The order of the scan: [dy] ascending in the outer loop, [dx]
    ascending in the inner one. *)
Definition scan_before (c c' : Z * Z) : Prop :=
  fst c < fst c' \/ (fst c = fst c' /\ snd c < snd c').

(** What the search loop maintains after the shifts [done]: no scored
    shift seen so far beats the running best [b]; and the running best is
    either still the initial pair, or the score of a shift [r] that passed
    the gate and that no earlier scored shift reaches. *)
Definition search_inv (ref test : fgrid F) (done : list (Z * Z))
           (best : fval F * (Z * Z)) : Prop :=
  (forall c s, In c done -> candidate_score ref test c = Some s ->
               fv_ltb (fst best) s = false) /\
  ((best = (Fin (f_of_Z (-999)), (0, 0))) \/
   (exists l1 l2,
       done = l1 ++ snd best :: l2 /\
       candidate_score ref test (snd best) = Some (fst best) /\
       fv_ltb (Fin (f_of_Z (-999))) (fst best) = true /\
       (forall c s, In c l1 -> candidate_score ref test c = Some s ->
                    fv_leb (fst best) s = false))).

(** The gate as the specification words it: a shift whose mask of
    jointly non-zero pixels has fewer than 50 pixels is never the one
    [find_offset] returns. *)
Definition gate_failing_never_returned (ref test : grid F) (max_shift : Z)
  : Prop :=
  forall c : Z * Z,
    In c (scan_order max_shift) ->
    (count (overlap_mask (zscore (zero_nonfinite ref))
                         (ndimage_shift (zscore (zero_nonfinite test))
                                        (fst c) (snd c))) < 50)%nat ->
    find_offset ref test max_shift <> c.

(** The result of [lia_slope] below the sample threshold as the
    specification words it: slope, intercept, r2 and n are all the
    undefined sentinel. *)
Definition slope_all_undefined (d : gmap string (pyval F)) : Prop :=
  d !! "slope" = Some (VFloat NaN) /\
  d !! "intercept" = Some (VFloat NaN) /\
  d !! "r2" = Some (VFloat NaN) /\
  d !! "n" = Some (VFloat NaN).
End SpecWords.

(** The alignment invariant as the specification words it: every grid of
    the loaded dictionary has the reference shape of its unit. *)
Definition every_grid_aligned {F : Type} {affine : Type}
           (st : load_state (F := F) affine) : Prop :=
  forall (k : string) (g : grid F) (s : nat * nat),
    ref_shape st = Some s ->
    dict_get k (data_dict st) = Some g ->
    shape g = s.

(** Rasters on disk have at least one row and one column. *)
Definition rasters_nonempty {F : Type} {affine : Type}
           (fs : filesystem (F := F) affine) : Prop :=
  forall (p : string) (src : raster affine),
    fs_open fs p = Some src ->
    (0 < fst (shape (band src)))%nat /\ (0 < snd (shape (band src)))%nat.

(** What holds of the local variables before the PyroSAR loop. *)
Definition before_pyrosar {F : Type} {affine : Type}
           (st : load_state (F := F) affine) : Prop :=
  dict_get "pyrosar_kartverket" (data_dict st) = None /\
  dict_get "pyrosar_copernicus" (data_dict st) = None /\
  (ref_shape st = None -> dict_get "hyp3_gamma" (data_dict st) = None) /\
  (forall s, ref_shape st = Some s ->
             (0 < fst s)%nat /\
             forall g, dict_get "hyp3_gamma" (data_dict st) = Some g ->
                       shape g = s).

(** What holds of them during and after it. *)
Definition aligned_to_reference {F : Type} {affine : Type}
           (st : load_state (F := F) affine) : Prop :=
  forall s, ref_shape st = Some s ->
            (0 < fst s)%nat /\
            forall k g,
              k = "hyp3_gamma" \/ k = "pyrosar_kartverket"
              \/ k = "pyrosar_copernicus" ->
              dict_get k (data_dict st) = Some g -> shape g = s.

(** ** A small unit on disk

    One date and area with a 2x2 HyP3 raster, a 1x1 GEE raster and a 1x2
    PyroSAR raster. *)
Definition example_fs : filesystem (F := Qc) unit :=
  {| fs_open := fun path =>
       if String.eqb path
            "./data/multitemporal/hyp3/20170613/jorde_hyp3_vv.tif"
       then Some {| band := [[Fin (Qc_of_Z 1); Fin (Qc_of_Z 2)];
                             [Fin (Qc_of_Z 3); Fin (Qc_of_Z 4)]];
                    transform := tt |}
       else if String.eqb path
                 "./data/multitemporal/gee/20170613/jorde_standard_vv.tif"
       then Some {| band := [[Fin (Qc_of_Z 5)]]; transform := tt |}
       else if String.eqb path
                 "./data/multitemporal/pyrosar_kartverket/20170613/jorde/jorde_VV_gamma0-rtc_cropped.tif"
       then Some {| band := [[Fin (Qc_of_Z 6); Fin (Qc_of_Z 7)]];
                    transform := tt |}
       else None;
     fs_glob := fun _ _ => [] |}.

Definition example_state : load_state (F := Qc) unit :=
  load_all_state (fun v => v) (fun x => x) "." (fun _ _ _ _ => NaN)
                 example_fs "20170613" "jorde" VV true.

(** A list of rows is an array when all rows have one length. *)
Definition rectangular {A : Type} (a : list (list A)) : Prop :=
  forall row, In row a -> length row = length (hd [] a).

(** The plain sum of a list of reals. *)
Definition Rsum (l : list R) : R := fold_right Rplus 0%R l.

(** A grid of two constant rows of [n] cells. *)
Definition two_rows (n : nat) (a b : R) : grid R :=
  [repeat (Fin a) n; repeat (Fin b) n].

(** ** Further functions of the scripts *)

Section MoreMetrics.
Context {F : Type} `{FloatOps F}.

(** [_analyze_extended.calc_cv]: the finite, strictly positive cells
    only, and the mean without absolute value. *)
Definition calc_cv (data_linear : grid F) : fval F :=
  let cells := flatten data_linear in
  let keep := mask_and (map isfinite cells)
                       (map (fun v => fv_ltb (Fin (f_of_Z 0)) v) cells) in
  let d := map fin_val (select keep cells) in
  if (length d =? 0)%nat then NaN
  else fv_mul (fv_div (np_std d) (np_mean d)) (Fin (f_of_Z 100)).

(** [_change_detection.extract_at_points]: the raster value at each
    point, NaN for a point outside the frame.  [rowcol] is the inverse
    affine map of [rasterio.transform]. *)
Definition extract_at_points {affine coord : Type}
           (rowcol : affine -> coord -> coord -> Z * Z)
           (raster : grid F) (tr : affine) (x_coords y_coords : list coord)
  : list (fval F) :=
  map (fun xy : coord * coord =>
         let rc := rowcol tr (fst xy) (snd xy) in
         if (0 <=? fst rc) && (fst rc <? Z.of_nat (fst (shape raster)))
            && (0 <=? snd rc) && (snd rc <? Z.of_nat (snd (shape raster)))
         then nth (Z.to_nat (snd rc)) (nth (Z.to_nat (fst rc)) raster []) NaN
         else NaN)
      (combine x_coords y_coords).
End MoreMetrics.

Section MorePaths.
Variable BASE_DIR : string.

(** [_config.get_hyp3_path] *)
Definition get_hyp3_path (date_str aoi_key : string) (p : pol) : string :=
  path_join (path_join (MULTITEMP_HYP3_DIR BASE_DIR) date_str)
            (aoi_key +:+ "_hyp3_" +:+ pol_str p +:+ ".tif").

(** [_config.get_gee_path]; an unknown method key is its own suffix. *)
Definition get_gee_path (date_str aoi_key method_key : string) (p : pol)
  : string :=
  let suffix :=
    match dict_get method_key
            [ ("gee_s1ard_kartverket", "s1ard_kartverket");
              ("gee_s1ard_copernicus", "s1ard_copernicus");
              ("gee_standard", "standard") ] with
    | Some sfx => sfx
    | None => method_key
    end in
  path_join (path_join (MULTITEMP_GEE_DIR BASE_DIR) date_str)
            (aoi_key +:+ "_" +:+ suffix +:+ "_" +:+ pol_str p +:+ ".tif").

(** [_config.get_pyrosar_path] *)
Definition get_pyrosar_path (date_str aoi_key : string) (p : pol)
           (dem_type : string) : string :=
  let base := if String.eqb dem_type "kartverket"
              then MULTITEMP_PYROSAR_KART_DIR BASE_DIR
              else MULTITEMP_PYROSAR_COP_DIR BASE_DIR in
  path_join (path_join (path_join base date_str) aoi_key)
            (aoi_key +:+ "_" +:+ pol_upper p +:+ "_gamma0-rtc_cropped.tif").

(** [_config.find_pyrosar_file] *)
Definition config_find_pyrosar_file {F : Type} {affine : Type}
           (fs : filesystem (F := F) affine) (date_str aoi_key : string)
           (p : pol) (dem_type : string) : option string :=
  let path := get_pyrosar_path date_str aoi_key p dem_type in
  if path_exists fs path then Some path else None.

(** [_analyze_lia.get_bs_path] *)
Definition get_bs_path {F : Type} {affine : Type}
           (fs : filesystem (F := F) affine) (date aoi method : string)
           (p : pol) : option string :=
  if String.eqb method "hyp3_gamma" then
    Some (path_join (path_join (MULTITEMP_HYP3_DIR BASE_DIR) date)
                    (aoi +:+ "_hyp3_" +:+ pol_str p +:+ ".tif"))
  else if String.eqb method "gee_standard" then
    Some (path_join (path_join (MULTITEMP_GEE_DIR BASE_DIR) date)
                    (aoi +:+ "_standard_" +:+ pol_str p +:+ ".tif"))
  else if String.eqb method "gee_s1ard_copernicus" then
    Some (path_join (path_join (MULTITEMP_GEE_DIR BASE_DIR) date)
                    (aoi +:+ "_s1ard_copernicus_" +:+ pol_str p +:+ ".tif"))
  else if String.eqb method "gee_s1ard_kartverket" then
    Some (path_join (path_join (MULTITEMP_GEE_DIR BASE_DIR) date)
                    (aoi +:+ "_s1ard_kartverket_" +:+ pol_str p +:+ ".tif"))
  else if String.eqb method "pyrosar_kartverket" then
    match fs_glob fs (path_join (path_join (MULTITEMP_PYROSAR_KART_DIR BASE_DIR)
                                           date) aoi)
                  ("*" +:+ pol_upper p +:+ "*cropped*.tif") with
    | m :: _ => Some m
    | [] => None
    end
  else if String.eqb method "pyrosar_copernicus" then
    match fs_glob fs (path_join (path_join (MULTITEMP_PYROSAR_COP_DIR BASE_DIR)
                                           date) aoi)
                  ("*" +:+ pol_upper p +:+ "*cropped*.tif") with
    | m :: _ => Some m
    | [] => None
    end
  else None.

(** [_analyze_lia.get_lia_path]: the incidence-angle raster of a method
    and whether it stores radians. *)
Definition get_lia_path (date aoi method : string) : option string * bool :=
  let hyp3_inc :=
    path_join (path_join (MULTITEMP_HYP3_DIR BASE_DIR) date)
              (aoi +:+ "_hyp3_inc.tif") in
  if String.eqb method "hyp3_gamma" then (Some hyp3_inc, true)
  else if String.eqb method "pyrosar_kartverket" then
    (Some (path_join (path_join (path_join (MULTITEMP_PYROSAR_KART_DIR BASE_DIR)
                                           date) aoi)
                     (aoi +:+ "_localIncidenceAngle_cropped.tif")), false)
  else if String.eqb method "pyrosar_copernicus" then
    (Some (path_join (path_join (path_join (MULTITEMP_PYROSAR_COP_DIR BASE_DIR)
                                           date) aoi)
                     (aoi +:+ "_localIncidenceAngle_cropped.tif")), false)
  else if String.eqb method "gee_s1ard_kartverket" then
    (Some (path_join (path_join (MULTITEMP_GEE_DIR BASE_DIR) date)
                     (aoi +:+ "_s1ard_kartverket_lia.tif")), false)
  else if String.eqb method "gee_s1ard_copernicus" then
    (Some (path_join (path_join (MULTITEMP_GEE_DIR BASE_DIR) date)
                     (aoi +:+ "_s1ard_copernicus_lia.tif")), false)
  else if String.eqb method "gee_standard" then (Some hyp3_inc, true)
  else (None, false).
End MorePaths.

(** The methods in the order [load_all_methods] visits them. *)
Definition load_order : list string :=
  [ "hyp3_gamma"; "gee_s1ard_kartverket"; "gee_s1ard_copernicus";
    "gee_standard"; "pyrosar_kartverket"; "pyrosar_copernicus" ].

(** [l1] is [l2] with some elements left out. *)
Fixpoint sublist_of (l1 l2 : list string) : bool :=
  match l1, l2 with
  | [], _ => true
  | _ :: _, [] => false
  | a :: t1, b :: t2 =>
      if String.eqb a b then sublist_of t1 t2 else sublist_of l1 t2
  end.

(** The keys of the dictionary under construction, in insertion order. *)
Definition keys_of {F : Type} {affine : Type}
           (st : load_state (F := F) affine) : list string :=
  map fst (data_dict st).

(** The keys after an assignment to key [k]. *)
Definition add_key (k : string) (ks : list string) : list string :=
  if existsb (String.eqb k) ks then ks else ks ++ [k].

(** * Results *)

(** ** Masks and selections *)

Section MaskFacts.
Context {F : Type} `{FloatOps F}.

Lemma mask_and_comm (m1 m2 : list bool) : mask_and m1 m2 = mask_and m2 m1.
Proof.
  unfold mask_and. revert m2.
  induction m1 as [|a m1 IH]; intros [|b m2]; simpl; try reflexivity.
  rewrite IH. f_equal. apply andb_comm.
Qed.

Lemma joint_mask_comm (a b : grid F) : joint_mask a b = joint_mask b a.
Proof. apply mask_and_comm. Qed.

Lemma count_le_length (m : list bool) : (count m <= length m)%nat.
Proof.
  unfold count. induction m as [|[] m IH]; simpl; lia.
Qed.

Lemma mask_and_length (m1 m2 : list bool) :
  length (mask_and m1 m2) = Nat.min (length m1) (length m2).
Proof.
  unfold mask_and. rewrite length_map. apply length_combine.
Qed.

Lemma select_length {A : Type} (m : list bool) (l : list A) :
  (length m <= length l)%nat -> length (select m l) = count m.
Proof.
  unfold select, count. rewrite length_map. revert l.
  induction m as [|b m IH]; intros [|x l] Hl; simpl in *; try lia.
  destruct b; simpl; rewrite IH by lia; reflexivity.
Qed.

Lemma joint_mask_length_l (a b : grid F) :
  (length (joint_mask a b) <= length (flatten a))%nat.
Proof.
  unfold joint_mask. rewrite mask_and_length, !length_map. lia.
Qed.

Lemma joint_mask_length_r (a b : grid F) :
  (length (joint_mask a b) <= length (flatten b))%nat.
Proof.
  unfold joint_mask. rewrite mask_and_length, !length_map. lia.
Qed.

Lemma masked_length_l (a b : grid F) :
  length (masked a (joint_mask a b)) = count (joint_mask a b).
Proof.
  unfold masked. rewrite length_map.
  apply select_length, joint_mask_length_l.
Qed.

Lemma masked_length_r (a b : grid F) :
  length (masked b (joint_mask a b)) = count (joint_mask a b).
Proof.
  unfold masked. rewrite length_map.
  apply select_length, joint_mask_length_r.
Qed.

Lemma sub_arrays_length (x y : list F) :
  length (sub_arrays x y) = Nat.min (length x) (length y).
Proof. unfold sub_arrays. rewrite length_map. apply length_combine. Qed.
End MaskFacts.


(** ** Univariate statistics *)

Section StatsFacts.
Context {F : Type} `{FloatOps F}.

Lemma finite_of_valid_entries (data : grid F) :
  finite_of data = valid_entries data.
Proof.
  unfold finite_of, valid_entries, select.
  induction (flatten data) as [|v l IH]; simpl; [reflexivity|].
  destruct v; simpl; rewrite IH; reflexivity.
Qed.

Lemma valid_entries_nil (data : grid F) :
  (forall v, In v (flatten data) -> isfinite v = false) ->
  valid_entries data = [].
Proof.
  unfold valid_entries. induction (flatten data) as [|v l IH]; intros Hv.
  - reflexivity.
  - simpl. rewrite IH by (intros w Hw; apply Hv; right; exact Hw).
    specialize (Hv v (or_introl eq_refl)). destruct v; simpl in *;
      try discriminate; reflexivity.
Qed.

(** C8. [calculate_stats] agrees with the specified statistics of the
    valid entries: population mean and standard deviation, and
    [cv = std / |mean| * 100]; on a grid without any finite entry it
    returns [n = 0] with mean, std and cv all NaN.  The function is total,
    so no input makes it fail. *)
Theorem C8_calculate_stats (data : grid F) :
  calculate_stats data = spec_stats (valid_entries data) /\
  ((forall v, In v (flatten data) -> isfinite v = false) ->
   calculate_stats data
   = {| st_mean := NaN; st_std := NaN; st_cv := NaN; st_n := 0 |}).
Proof.
  assert (Hspec : calculate_stats data = spec_stats (valid_entries data)).
  { unfold calculate_stats, calculate_cv.
    rewrite finite_of_valid_entries.
    destruct (valid_entries data) as [|x l]; [reflexivity|].
    unfold spec_stats, np_mean, np_std, f_std, f_var, f_mean, f_sq.
    rewrite length_map. reflexivity. }
  split; [exact Hspec|].
  intros Hv. rewrite Hspec, (valid_entries_nil data Hv). reflexivity.
Qed.
End StatsFacts.

Lemma C8_calculate_stats_witness :
  calculate_stats (F := Qc) [[NaN; PInf]; [NInf; NaN]]
  = {| st_mean := NaN; st_std := NaN; st_cv := NaN; st_n := 0 |}.
Proof.
  apply (proj2 (C8_calculate_stats (F := Qc) [[NaN; PInf]; [NInf; NaN]])).
  intros v Hv. simpl in Hv.
  destruct Hv as [<-|[<-|[<-|[<-|[]]]]]; reflexivity.
Defined.

(** ** Thresholded pairwise metrics *)

Section ExtendedFacts.
Context {F : Type} `{FloatOps F}.

Lemma np_mean_nonempty (l : list F) :
  l <> [] -> np_mean l = Fin (f_mean l).
Proof. destruct l; [congruence | reflexivity]. Qed.

Lemma joint_diff_length (a b : grid F) :
  length (sub_arrays (masked a (joint_mask a b)) (masked b (joint_mask a b)))
  = count (joint_mask a b).
Proof.
  rewrite sub_arrays_length, masked_length_l, masked_length_r. lia.
Qed.

(** C9. [calc_rmse] and [calc_r2] return NaN whenever fewer than ten
    samples are finite in both arrays (not only when there is none);
    hence a result other than NaN implies at least ten joint samples, and
    with ten or more [calc_rmse] returns the computed root mean square. *)
Theorem C9_extended_threshold (test ref : grid F) :
  ((count (joint_mask test ref) < 10)%nat ->
   calc_rmse test ref = NaN /\ calc_r2 test ref = NaN) /\
  (calc_rmse test ref <> NaN -> (10 <= count (joint_mask test ref))%nat) /\
  (calc_r2 test ref <> NaN -> (10 <= count (joint_mask test ref))%nat) /\
  ((10 <= count (joint_mask test ref))%nat ->
   calc_rmse test ref
   = Fin (f_sqrt (f_mean (map f_sq
        (sub_arrays (masked test (joint_mask test ref))
                    (masked ref (joint_mask test ref))))))).
Proof.
  unfold calc_rmse, calc_r2.
  destruct (count (joint_mask test ref) <? 10)%nat eqn:E.
  - apply Nat.ltb_lt in E. repeat split; try congruence; intros; lia.
  - apply Nat.ltb_ge in E. repeat split; try lia.
    intros _. rewrite np_mean_nonempty; [reflexivity|].
    intros Hnil. apply (f_equal (@length F)) in Hnil.
    rewrite length_map, joint_diff_length in Hnil. simpl in Hnil. lia.
Qed.
End ExtendedFacts.

Lemma C9_extended_threshold_witness :
  calc_rmse (F := Qc)
    [[Fin (Qc_of_Z 1); Fin (Qc_of_Z 2); NaN]; [Fin (Qc_of_Z 3); PInf; Fin (Qc_of_Z 7)]]
    [[Fin (Qc_of_Z 4); Fin (Qc_of_Z 9); Fin (Qc_of_Z 1)]; [NaN; Fin (Qc_of_Z 2); Fin (Qc_of_Z 5)]]
  = NaN /\
  calc_r2 (F := Qc)
    [[Fin (Qc_of_Z 1); Fin (Qc_of_Z 2); NaN]; [Fin (Qc_of_Z 3); PInf; Fin (Qc_of_Z 7)]]
    [[Fin (Qc_of_Z 4); Fin (Qc_of_Z 9); Fin (Qc_of_Z 1)]; [NaN; Fin (Qc_of_Z 2); Fin (Qc_of_Z 5)]]
  = NaN.
Proof.
  apply (proj1 (C9_extended_threshold (F := Qc) _ _)).
  vm_compute. lia.
Defined.

(** ** Symmetry of the pairwise metrics *)

Section SymmetryFacts.
Context {F : Type} `{FloatRing F}.

Lemma sub_arrays_swap (x y : list F) :
  sub_arrays y x = map f_opp (sub_arrays x y).
Proof.
  unfold sub_arrays. revert y.
  induction x as [|a x IH]; intros [|b y]; simpl; try reflexivity.
  rewrite IH, f_sub_opp. reflexivity.
Qed.

Lemma fold_add_opp (l : list F) (acc : F) :
  fold_left f_add (map f_opp l) (f_opp acc) = f_opp (fold_left f_add l acc).
Proof.
  revert acc. induction l as [|a l IH]; intros acc; simpl; [reflexivity|].
  rewrite <- f_opp_add. apply IH.
Qed.

Lemma f_sum_opp (l : list F) : f_sum (map f_opp l) = f_opp (f_sum l).
Proof.
  unfold f_sum. rewrite <- fold_add_opp, f_opp_zero. reflexivity.
Qed.

Lemma f_mean_opp (l : list F) : f_mean (map f_opp l) = f_opp (f_mean l).
Proof.
  unfold f_mean. rewrite f_sum_opp, length_map, f_opp_div. reflexivity.
Qed.

Lemma np_mean_opp (l : list F) : np_mean (map f_opp l) = fv_opp (np_mean l).
Proof.
  destruct l as [|a l]; [reflexivity|].
  unfold np_mean. simpl. f_equal. apply (f_mean_opp (a :: l)).
Qed.

Lemma map_sq_opp (l : list F) : map f_sq (map f_opp l) = map f_sq l.
Proof.
  rewrite map_map. apply map_ext. intros a. apply f_sq_opp.
Qed.

Lemma f_dot_comm (x y : list F) : f_dot x y = f_dot y x.
Proof.
  unfold f_dot. f_equal. revert y.
  induction x as [|a x IH]; intros [|b y]; simpl; try reflexivity.
  rewrite IH, f_mul_comm. reflexivity.
Qed.

Lemma pearsonr_r_comm (x y : list F) : pearsonr_r x y = pearsonr_r y x.
Proof.
  unfold pearsonr_r. rewrite orb_comm.
  destruct (is_constant y || is_constant x); [reflexivity|].
  rewrite f_dot_comm. reflexivity.
Qed.

(** C6. For arrays of equal shape, [calculate_bias] changes sign when its
    arguments are swapped, while [calculate_rmse] and the coefficient of
    [calculate_correlation] are unchanged (the undefined result NaN is
    its own negation). *)
Theorem C6_pairwise_symmetry (pearsonr_p : fval F -> nat -> fval F)
        (a b : grid F) :
  shape a = shape b ->
  calculate_bias a b = fv_opp (calculate_bias b a) /\
  calculate_rmse a b = calculate_rmse b a /\
  fst (calculate_correlation pearsonr_p a b)
  = fst (calculate_correlation pearsonr_p b a).
Proof.
  intros _. unfold calculate_bias, calculate_rmse, calculate_correlation.
  rewrite (joint_mask_comm b a).
  set (mask := joint_mask a b).
  set (x := masked a mask). set (y := masked b mask).
  repeat split.
  - destruct (count mask =? 0)%nat; [reflexivity|].
    rewrite (sub_arrays_swap y x), np_mean_opp.
    destruct (np_mean (sub_arrays y x)); simpl;
      rewrite ?f_opp_opp; reflexivity.
  - destruct (count mask =? 0)%nat; [reflexivity|].
    rewrite (sub_arrays_swap x y), map_sq_opp. reflexivity.
  - destruct (count mask <? 3)%nat; [reflexivity|].
    simpl. apply pearsonr_r_comm.
Qed.
End SymmetryFacts.

(** The rationals satisfy the algebraic facts. *)
Lemma Qc_float_ring : FloatRing Qc.
Proof.
  constructor; simpl; intros.
  - ring.
  - ring.
  - ring.
  - apply Qc_is_canon. reflexivity.
  - ring.
  - unfold Qcdiv. ring.
  - ring.
Qed.

Lemma C6_pairwise_symmetry_witness :
  let a : grid Qc := [[Fin (Qc_of_Z 1); NaN]; [Fin (Qc_of_Z 3); Fin (Qc_of_Z 8)]] in
  let b : grid Qc := [[Fin (Qc_of_Z 2); Fin (Qc_of_Z 5)]; [PInf; Fin (Qc_of_Z 6)]] in
  calculate_bias a b = fv_opp (calculate_bias b a) /\
  calculate_rmse a b = calculate_rmse b a /\
  fst (calculate_correlation (fun _ _ => NaN) a b)
  = fst (calculate_correlation (fun _ _ => NaN) b a).
Proof.
  intros a b.
  apply (@C6_pairwise_symmetry Qc Qc_ops Qc_float_ring (fun _ _ => NaN) a b).
  reflexivity.
Defined.

(** ** The raster loader *)

Section LoaderFacts.
Context {F : Type} `{FloatOps F}.
Variable affine : Type.
Variable astype_float32 : fval F -> fval F.
Variable log10 : F -> F.

Lemma mask_invalid_cases (v : fval F) :
  mask_invalid v = NaN \/
  (mask_invalid v = v /\ fv_leb v (Fin (f_of_Z 0)) = false).
Proof.
  unfold mask_invalid. destruct (fv_leb v (Fin (f_of_Z 0))); auto.
Qed.

Lemma to_db_positive (x : F) :
  f_leb x (f_of_Z 0) = false ->
  to_db log10 (Fin x) = Fin (f_mul (f_of_Z 10) (log10 x)).
Proof.
  unfold f_leb. intros Hx. apply orb_false_iff in Hx. destruct Hx as [Hlt Heq].
  simpl. rewrite Heq, Hlt. reflexivity.
Qed.

(** C7. [load_raster] returns the absent pair when there is no path or
    the path does not exist.  Otherwise the band is cast to floating
    point and every cell [<= 0] becomes NaN; that masked grid is the
    result in the linear domain, so none of its finite cells is zero or
    negative, and with [as_db] the result is the same masked grid with
    [10 * log10] applied to each surviving cell. *)
Theorem C7_load_raster (fs : filesystem affine) (p : string) (as_db : bool) :
  load_raster astype_float32 log10 fs None as_db = (None, None) /\
  (fs_open fs p = None ->
   load_raster astype_float32 log10 fs (Some p) as_db = (None, None)) /\
  (forall src : raster affine,
      fs_open fs p = Some src ->
      let lin := map (map (fun v => mask_invalid (astype_float32 v)))
                     (band src) in
      load_raster astype_float32 log10 fs (Some p) false
      = (Some lin, Some (transform src)) /\
      load_raster astype_float32 log10 fs (Some p) true
      = (Some (map (map (to_db log10)) lin), Some (transform src)) /\
      (forall v, In v (flatten lin) ->
                 v = NaN \/ fv_leb v (Fin (f_of_Z 0)) = false) /\
      (forall x, In (Fin x) (flatten lin) ->
                 f_leb x (f_of_Z 0) = false /\
                 to_db log10 (Fin x) = Fin (f_mul (f_of_Z 10) (log10 x))) /\
      to_db log10 NaN = NaN).
Proof.
  split; [reflexivity|]. split.
  - intros Hp. unfold load_raster. rewrite Hp. reflexivity.
  - intros src Hp lin.
    assert (Hcells : forall v, In v (flatten lin) ->
                               v = NaN \/ fv_leb v (Fin (f_of_Z 0)) = false).
    { intros v Hv. unfold flatten, lin in Hv.
      rewrite <- concat_map in Hv. apply in_map_iff in Hv.
      destruct Hv as [w [Hw _]]. subst v.
      destruct (mask_invalid_cases (astype_float32 w)) as [E|[E Hle]];
        rewrite E; auto. }
    repeat split.
    + unfold load_raster. rewrite Hp. simpl. unfold lin.
      rewrite map_map. f_equal. f_equal. apply map_ext. intros row.
      rewrite map_map. reflexivity.
    + unfold load_raster. rewrite Hp. simpl. unfold lin.
      rewrite (map_map (map astype_float32)). f_equal. f_equal. f_equal.
      apply map_ext. intros row. rewrite map_map. reflexivity.
    + exact Hcells.
    + destruct (Hcells _ H0) as [E|E]; [discriminate | exact E].
    + apply to_db_positive.
      destruct (Hcells _ H0) as [E|E]; [discriminate | exact E].
Qed.
End LoaderFacts.

Lemma C7_load_raster_witness :
  let fs : filesystem (F := Qc) unit :=
    {| fs_open := fun path =>
         if String.eqb path "data/a.tif"
         then Some {| band := [[Fin (Qc_of_Z 3); Fin (Qc_of_Z 0)];
                               [Fin (Qc_of_Z (-2)); NaN]];
                      transform := tt |}
         else None;
       fs_glob := fun _ _ => [] |} in
  load_raster (fun v => v) (fun x => x) fs (Some "data/b.tif") true
  = (None, None) /\
  load_raster (fun v => v) (fun x => x) fs (Some "data/a.tif") false
  = (Some [[Fin (Qc_of_Z 3); NaN]; [NaN; NaN]], Some tt).
Proof.
  intros fs. split.
  - apply (proj1 (proj2 (C7_load_raster (fun v => v) (fun x => x)
                                        fs "data/b.tif" true))).
    reflexivity.
  - etransitivity.
    + apply (proj1 (proj2 (proj2 (C7_load_raster (fun v => v) (fun x => x)
                                                 fs "data/a.tif" false))
                     {| band := [[Fin (Qc_of_Z 3); Fin (Qc_of_Z 0)];
                                 [Fin (Qc_of_Z (-2)); NaN]];
                        transform := tt |} eq_refl)).
    + reflexivity.
Defined.

(** ** The offset search *)

Section SearchLoop.
Context {F : Type} `{FloatOps F}.
Variables ref test : fgrid F.

Lemma candidate_score_gate (c : Z * Z) :
  (candidate_score ref test c = None <->
   (count (overlap_mask ref (ndimage_shift test (fst c) (snd c))) < 50)%nat)
  /\
  (forall s, candidate_score ref test c = Some s ->
     (50 <= count (overlap_mask ref (ndimage_shift test (fst c) (snd c))))%nat).
Proof.
  unfold candidate_score.
  destruct (50 <=? count _)%nat eqn:E.
  - apply Nat.leb_le in E. split; [split; [discriminate | lia] | intros; lia].
  - apply Nat.leb_gt in E. split; [split; auto | discriminate].
Qed.

Lemma fold_offset_log (l : list (Z * Z)) (st : search_state) :
  snd (fold_left (offset_step ref test) l st) = snd st ++ l.
Proof.
  revert st. induction l as [|c l IH]; intros st; simpl.
  - rewrite app_nil_r. reflexivity.
  - rewrite IH. simpl. rewrite <- app_assoc. reflexivity.
Qed.

Lemma fold_offset_skip (l : list (Z * Z)) (st : search_state) :
  (forall c, In c l -> candidate_score ref test c = None) ->
  fst (fold_left (offset_step ref test) l st) = fst st.
Proof.
  revert st. induction l as [|c l IH]; intros st Hl; simpl; [reflexivity|].
  rewrite IH by (intros c' Hc'; apply Hl; right; exact Hc').
  unfold offset_step. rewrite (Hl c (or_introl eq_refl)). reflexivity.
Qed.
End SearchLoop.

Section SearchFacts.
Context {F : Type} `{FloatOps F}.

(** C4. When the standard deviation of either grid (non-finite cells
    zeroed) is below [1e-6], [find_offset] returns [(0, 0)] and the log
    of evaluated shifts is empty: no candidate is shifted or scored. *)
Theorem C4_degenerate_offset (ref test : grid F) (max_shift : Z) :
  fv_ltb (np_std (concat (zero_nonfinite ref))) (Fin eps_std) = true \/
  fv_ltb (np_std (concat (zero_nonfinite test))) (Fin eps_std) = true ->
  find_offset_run ref test max_shift = ((0, 0), []) /\
  find_offset ref test max_shift = (0, 0).
Proof.
  intros Hdeg. unfold find_offset.
  assert (E : find_offset_run ref test max_shift = ((0, 0), [])).
  { unfold find_offset_run.
    destruct Hdeg as [-> | ->]; [reflexivity|].
    rewrite orb_true_r. reflexivity. }
  rewrite E. split; reflexivity.
Qed.

End SearchFacts.

Lemma C4_degenerate_offset_witness :
  find_offset_run (F := Qc)
    (repeat (repeat (Fin (Qc_of_Z 5)) 10) 10)
    (repeat (repeat (Fin (Qc_of_Z 5)) 10) 10) 3
  = ((0, 0), []) /\
  find_offset (F := Qc)
    (repeat (repeat (Fin (Qc_of_Z 5)) 10) 10)
    (repeat (repeat (Fin (Qc_of_Z 5)) 10) 10) 3
  = (0, 0).
Proof.
  apply (C4_degenerate_offset (F := Qc)).
  left. vm_compute. reflexivity.
Defined.


(** ** Order on cells *)

Section CellOrder.
Context {F : Type} `{FloatOrder F}.

Lemma fv_ltb_irrefl (s : fval F) : fv_ltb s s = false.
Proof. destruct s; simpl; auto using f_ltb_irrefl. Qed.

Lemma fv_ltb_trans (a b c : fval F) :
  fv_ltb a b = true -> fv_ltb b c = true -> fv_ltb a c = true.
Proof.
  destruct a, b, c; simpl; try discriminate; auto.
  apply f_ltb_trans.
Qed.

Lemma fv_ltb_leb_trans (a b c : fval F) :
  fv_ltb a b = true -> fv_leb b c = true -> fv_ltb a c = true.
Proof.
  destruct a, b, c; simpl; try discriminate; auto.
  unfold f_leb. intros Hab Hbc. apply orb_true_iff in Hbc.
  destruct Hbc as [Hbc|Hbc].
  - eapply f_ltb_trans; eassumption.
  - apply f_eqb_eq in Hbc. subst. exact Hab.
Qed.

Lemma f_ltb_below (x : F) (a b : Z) :
  a < b -> f_ltb x (f_of_Z b) = false -> f_ltb (f_of_Z a) x = true.
Proof.
  intros Hab Hx.
  destruct (f_ltb (f_of_Z a) x) eqn:E; [reflexivity|].
  destruct (f_ltb x (f_of_Z a)) eqn:E'.
  - assert (Hc : f_ltb x (f_of_Z b) = true).
    { eapply f_ltb_trans; [exact E'|]. rewrite f_ltb_of_Z.
      apply Z.ltb_lt, Hab. }
    congruence.
  - rewrite (f_ltb_total _ _ E' E), f_ltb_of_Z in Hx.
    apply Z.ltb_ge in Hx. lia.
Qed.

(** A clipped correlation is NaN or lies in [-1, 1]. *)
Lemma fv_clip_range (v : fval F) :
  fv_clip (f_of_Z (-1)) (f_of_Z 1) v = NaN \/
  exists x, fv_clip (f_of_Z (-1)) (f_of_Z 1) v = Fin x /\
            f_ltb x (f_of_Z (-1)) = false /\ f_ltb (f_of_Z 1) x = false.
Proof.
  destruct v as [x| | |]; simpl.
  - right. destruct (f_ltb x (f_of_Z (-1))) eqn:E1.
    + exists (f_of_Z (-1)). rewrite f_ltb_irrefl, f_ltb_of_Z. auto.
    + destruct (f_ltb (f_of_Z 1) x) eqn:E2.
      * exists (f_of_Z 1). rewrite f_ltb_irrefl, f_ltb_of_Z. auto.
      * exists x. auto.
  - right. exists (f_of_Z 1). rewrite f_ltb_irrefl, f_ltb_of_Z. auto.
  - right. exists (f_of_Z (-1)). rewrite f_ltb_irrefl, f_ltb_of_Z. auto.
  - left. reflexivity.
Qed.

Lemma corrcoef_range (x y : list F) :
  corrcoef x y = NaN \/
  exists r, corrcoef x y = Fin r /\
            f_ltb r (f_of_Z (-1)) = false /\ f_ltb (f_of_Z 1) r = false.
Proof. apply fv_clip_range. Qed.

Lemma corrcoef_above_init (x y : list F) :
  fv_ltb (Fin (f_of_Z (-999))) (corrcoef x y) = false -> corrcoef x y = NaN.
Proof.
  destruct (corrcoef_range x y) as [E|[r [E [Hlo _]]]]; [auto|].
  rewrite E. simpl. intros Hr.
  rewrite (f_ltb_below r (a := -999) (b := -1)) in Hr; [discriminate|lia|exact Hlo].
Qed.

Lemma corrcoef_at_most_one (x y : list F) :
  fv_ltb (Fin (f_of_Z 1)) (corrcoef x y) = false.
Proof.
  destruct (corrcoef_range x y) as [E|[r [E [_ Hhi]]]]; rewrite E; simpl; auto.
Qed.
End CellOrder.

(** ** The order of the scan *)

Lemma zrange_In (lo hi x : Z) : In x (zrange lo hi) <-> lo <= x < hi.
Proof.
  unfold zrange. rewrite in_map_iff. split.
  - intros [k [<- Hk]]. apply in_seq in Hk. lia.
  - intros Hx. exists (Z.to_nat (x - lo)). split; [lia|].
    apply in_seq. lia.
Qed.

Lemma sorted_app {A : Type} (R : A -> A -> Prop) (l1 l2 : list A) :
  StronglySorted R l1 -> StronglySorted R l2 ->
  (forall x y, In x l1 -> In y l2 -> R x y) ->
  StronglySorted R (l1 ++ l2).
Proof.
  intros H1 H2 H12. induction H1 as [|a l1 Hl1 IH Ha]; simpl; [exact H2|].
  constructor.
  - apply IH. intros x y Hx Hy. apply H12; [right; exact Hx | exact Hy].
  - apply List.Forall_app. split; [exact Ha|].
    apply List.Forall_forall. intros y Hy. apply H12; [left; reflexivity | exact Hy].
Qed.

Lemma sorted_map_lt (f : nat -> Z) (s n : nat) :
  (forall i j, (i < j)%nat -> f i < f j) ->
  StronglySorted Z.lt (map f (seq s n)).
Proof.
  intros Hf. revert s. induction n as [|n IH]; intros s; simpl; constructor.
  - apply IH.
  - apply List.Forall_forall. intros y Hy. apply in_map_iff in Hy.
    destruct Hy as [j [<- Hj]]. apply in_seq in Hj. apply Hf. lia.
Qed.

Lemma zrange_sorted (lo hi : Z) : StronglySorted Z.lt (zrange lo hi).
Proof. apply sorted_map_lt. intros; lia. Qed.

Lemma sorted_pairs (dy : Z) (l : list Z) :
  StronglySorted Z.lt l ->
  StronglySorted scan_before (map (fun dx => (dy, dx)) l).
Proof.
  induction 1 as [|a l Hl IH Ha]; simpl; constructor; [exact IH|].
  apply List.Forall_forall. intros c Hc. apply in_map_iff in Hc.
  destruct Hc as [x [<- Hx]]. right. simpl. split; [reflexivity|].
  rewrite List.Forall_forall in Ha. apply Ha, Hx.
Qed.

Lemma sorted_rows (inner l : list Z) :
  StronglySorted Z.lt inner -> StronglySorted Z.lt l ->
  StronglySorted scan_before
    (flat_map (fun dy => map (fun dx => (dy, dx)) inner) l).
Proof.
  intros Hin. induction 1 as [|a l Hl IH Ha]; simpl; [constructor|].
  apply sorted_app; [apply sorted_pairs, Hin | exact IH |].
  intros x y Hx Hy. apply in_map_iff in Hx. destruct Hx as [dx [<- _]].
  apply in_flat_map in Hy. destruct Hy as [dy [Hdy Hy]].
  apply in_map_iff in Hy. destruct Hy as [dx' [<- _]].
  left. simpl. rewrite List.Forall_forall in Ha. apply Ha, Hdy.
Qed.

Lemma scan_order_sorted (max_shift : Z) :
  StronglySorted scan_before (scan_order max_shift).
Proof. apply sorted_rows; apply zrange_sorted. Qed.

Lemma scan_order_In (max_shift dy dx : Z) :
  In (dy, dx) (scan_order max_shift) <->
  - max_shift <= dy <= max_shift /\ - max_shift <= dx <= max_shift.
Proof.
  unfold scan_order. rewrite in_flat_map. split.
  - intros [y [Hy Hc]]. apply in_map_iff in Hc.
    destruct Hc as [x [E Hx]]. inversion E; subst.
    apply zrange_In in Hy, Hx. lia.
  - intros [Hy Hx]. exists dy. split; [apply zrange_In; lia|].
    apply in_map_iff. exists dx. split; [reflexivity | apply zrange_In; lia].
Qed.

Lemma sorted_split {A : Type} (R : A -> A -> Prop) (l1 l2 : list A) (c : A) :
  StronglySorted R (l1 ++ c :: l2) -> forall c', In c' l2 -> R c c'.
Proof.
  induction l1 as [|a l1 IH]; simpl; intros Hs c' Hc'.
  - inversion Hs as [|? ? _ Hall]; subst.
    rewrite List.Forall_forall in Hall. apply Hall, Hc'.
  - inversion Hs; subst. apply IH; assumption.
Qed.

(** ** The running best of the search *)

Section SearchInvariant.
Context {F : Type} `{FloatOrder F}.
Variables ref test : fgrid F.

Lemma search_inv_init :
  search_inv ref test [] (Fin (f_of_Z (-999)), (0, 0)).
Proof.
  split; [intros c s []|]. left. reflexivity.
Qed.

Lemma search_inv_step (done : list (Z * Z)) (st : search_state) (c : Z * Z) :
  search_inv ref test done (fst st) ->
  search_inv ref test (done ++ [c]) (fst (offset_step ref test st c)).
Proof.
  destruct st as [[b r] log]. unfold offset_step. cbn [fst snd].
  intros [Hmax Hbest].
  destruct (candidate_score ref test c) as [s|] eqn:Es.
  - destruct (fv_ltb b s) eqn:Ebs.
    + (* the candidate becomes the running best *)
      split.
      * intros c' s' Hc' Es'. cbn [fst snd]. apply in_app_or in Hc'.
        destruct Hc' as [Hc'|[<-|[]]].
        -- destruct (fv_ltb s s') eqn:E; [|reflexivity].
           pose proof (Hmax c' s' Hc' Es') as Hm. cbn [fst snd] in Hm.
           rewrite (fv_ltb_trans _ _ _ Ebs E) in Hm. discriminate.
        -- rewrite Es in Es'. inversion Es'; subst. apply fv_ltb_irrefl.
      * right. exists done, []. cbn [fst snd]. repeat split; auto.
        -- destruct Hbest as [Hb|[l1 [l2 [_ [_ [Hb _]]]]]].
           ++ inversion Hb; subst. exact Ebs.
           ++ cbn [fst snd] in Hb. eapply fv_ltb_trans; eassumption.
        -- intros c' s' Hc' Es'.
           destruct (fv_leb s s') eqn:E; [|reflexivity].
           pose proof (Hmax c' s' Hc' Es') as Hm. cbn [fst snd] in Hm.
           rewrite (fv_ltb_leb_trans _ _ _ Ebs E) in Hm. discriminate.
    + (* the candidate is scored but does not improve *)
      split.
      * intros c' s' Hc' Es'. cbn [fst snd]. apply in_app_or in Hc'.
        destruct Hc' as [Hc'|[<-|[]]]; [eapply Hmax; eassumption|].
        rewrite Es in Es'. inversion Es'; subst. exact Ebs.
      * destruct Hbest as [Hb|[l1 [l2 [Hd Hrest]]]]; [left; exact Hb|].
        right. exists l1, (l2 ++ [c]). cbn [fst snd] in *. split; [|exact Hrest].
        rewrite Hd, <- app_assoc. reflexivity.
  - (* the candidate fails the gate *)
    split.
    + intros c' s' Hc' Es'. cbn [fst snd]. apply in_app_or in Hc'.
      destruct Hc' as [Hc'|[<-|[]]]; [eapply Hmax; eassumption|].
      congruence.
    + destruct Hbest as [Hb|[l1 [l2 [Hd Hrest]]]]; [left; exact Hb|].
      right. exists l1, (l2 ++ [c]). cbn [fst snd] in *. split; [|exact Hrest].
      rewrite Hd, <- app_assoc. reflexivity.
Qed.

Lemma search_inv_fold (l done : list (Z * Z)) (st : search_state) :
  search_inv ref test done (fst st) ->
  search_inv ref test (done ++ l) (fst (fold_left (offset_step ref test) l st)).
Proof.
  revert done st. induction l as [|c l IH]; intros done st Hinv; simpl.
  - rewrite app_nil_r. exact Hinv.
  - replace (done ++ c :: l) with ((done ++ [c]) ++ l)
      by (rewrite <- app_assoc; reflexivity).
    apply IH, search_inv_step, Hinv.
Qed.
End SearchInvariant.

Section SearchResult.
Context {F : Type} `{FloatOrder F}.

Lemma candidate_score_corr (ref test : fgrid F) (c : Z * Z) (s : fval F) :
  candidate_score ref test c = Some s -> exists x y, s = corrcoef x y.
Proof.
  unfold candidate_score. destruct (50 <=? count _)%nat; [|discriminate].
  intros E. inversion E. eauto.
Qed.

(** The shape of every result of the search on non-degenerate grids. *)
Lemma search_result_cases (ref test : grid F) (max_shift : Z) :
  fv_ltb (np_std (concat (zero_nonfinite ref))) (Fin eps_std) = false ->
  fv_ltb (np_std (concat (zero_nonfinite test))) (Fin eps_std) = false ->
  let refz := zscore (zero_nonfinite ref) in
  let testz := zscore (zero_nonfinite test) in
  let r := find_offset ref test max_shift in
  snd (find_offset_run ref test max_shift) = scan_order max_shift /\
  StronglySorted scan_before (scan_order max_shift) /\
  (forall dy dx, In (dy, dx) (scan_order max_shift) <->
                 - max_shift <= dy <= max_shift /\
                 - max_shift <= dx <= max_shift) /\
  (forall c, candidate_score refz testz c = None <->
             (count (overlap_mask refz (ndimage_shift testz (fst c) (snd c)))
              < 50)%nat) /\
  ((r = (0, 0) /\
    forall c s, In c (scan_order max_shift) ->
                candidate_score refz testz c = Some s -> s = NaN) \/
   (exists l1 l2 s,
       scan_order max_shift = l1 ++ r :: l2 /\
       candidate_score refz testz r = Some s /\
       isfinite s = true /\
       (forall c s', In c l1 -> candidate_score refz testz c = Some s' ->
                     fv_leb s s' = false) /\
       (forall c s', In c l2 -> candidate_score refz testz c = Some s' ->
                     fv_ltb s s' = false))).
Proof.
  intros Href Htest refz testz r.
  assert (Erun : find_offset_run ref test max_shift
                 = (snd (fst (fold_left (offset_step refz testz)
                                        (scan_order max_shift)
                                        ((Fin (f_of_Z (-999)), (0, 0)), []))),
                    snd (fold_left (offset_step refz testz)
                                   (scan_order max_shift)
                                   ((Fin (f_of_Z (-999)), (0, 0)), [])))).
  { unfold find_offset_run. rewrite Href, Htest. reflexivity. }
  split; [rewrite Erun; cbn [snd]; rewrite fold_offset_log; reflexivity|].
  split; [apply scan_order_sorted|].
  split; [apply scan_order_In|].
  split; [intros c; apply (proj1 (candidate_score_gate refz testz c))|].
  pose proof (@search_inv_fold F _ _ refz testz (scan_order max_shift) []
                ((Fin (f_of_Z (-999)), (0, 0)), [])
                (search_inv_init refz testz)) as Hinv.
  cbn [app] in Hinv.
  assert (Er : r = snd (fst (fold_left (offset_step refz testz)
                                       (scan_order max_shift)
                                       ((Fin (f_of_Z (-999)), (0, 0)), [])))).
  { unfold r, find_offset. rewrite Erun. reflexivity. }
  destruct (fst (fold_left (offset_step refz testz) (scan_order max_shift)
                           ((Fin (f_of_Z (-999)), (0, 0)), [])))
    as [b r'] eqn:Ebest.
  cbn [snd] in Er. subst r'.
  destruct Hinv as [Hmax [Hinit|[l1 [l2 [Hd [Hs [Hb Hfirst]]]]]]].
  - left. inversion Hinit; subst. split; [congruence|].
    intros c s Hc Es.
    destruct (candidate_score_corr _ _ _ Es) as [x [y ->]].
    apply corrcoef_above_init. apply (Hmax c _ Hc Es).
  - right. cbn [fst snd] in *. exists l1, l2, b.
    split; [exact Hd|]. split; [exact Hs|]. split.
    + destruct (candidate_score_corr _ _ _ Hs) as [x [y ->]].
      destruct (corrcoef_range x y) as [E|[v [E _]]];
        rewrite E in *; [discriminate | reflexivity].
    + split; [exact Hfirst|].
      intros c s' Hc Es'. apply (Hmax c s'); [|exact Es'].
      rewrite Hd. apply in_or_app. right. right. exact Hc.
Qed.

End SearchResult.

(** The rationals satisfy the order facts. *)
Lemma Qc_float_order : FloatOrder Qc.
Proof.
  constructor; cbn [f_ltb f_eqb f_of_Z Qc_ops]; unfold Qc_ltb, Qc_eqb.
  - intros x. rewrite (proj1 (Qceq_alt x x) eq_refl). reflexivity.
  - intros x y z Hxy Hyz.
    destruct (x ?= y)%Qc eqn:E1; try discriminate.
    destruct (y ?= z)%Qc eqn:E2; try discriminate.
    rewrite (proj1 (Qclt_alt x z)
                   (Qclt_trans _ _ _ (proj2 (Qclt_alt x y) E1)
                                     (proj2 (Qclt_alt y z) E2))).
    reflexivity.
  - intros x y Hxy Hyx.
    destruct (x ?= y)%Qc eqn:E1; try discriminate.
    + apply Qceq_alt, E1.
    + apply Qcgt_alt in E1.
      rewrite (proj1 (Qclt_alt y x) E1) in Hyx. discriminate.
  - intros x y Hxy. destruct (x ?= y)%Qc eqn:E; try discriminate.
    apply Qceq_alt, E.
  - intros x. rewrite (proj1 (Qceq_alt x x) eq_refl). reflexivity.
  - intros a b. unfold Qc_of_Z, Qccompare. simpl.
    rewrite <- Qred_compare. unfold Qcompare, Z.ltb. simpl.
    rewrite !Z.mul_1_r. reflexivity.
Qed.



(** ** The incidence-angle regression *)

Section SlopeFacts.
Context {F : Type} `{FloatOps F}.

Lemma slope_mask_spec (bs_f lia_f : list (fval F)) :
  slope_mask bs_f lia_f = map spec_keep_sample (combine bs_f lia_f).
Proof.
  revert lia_f. induction bs_f as [|b bs IH]; intros [|l lia];
    try reflexivity.
  specialize (IH lia). unfold slope_mask, mask_and in *.
  cbn [map combine fst snd]. rewrite IH. reflexivity.
Qed.

Lemma count_map_filter {A : Type} (p : A -> bool) (l : list A) :
  count (map p l) = length (List.filter p l).
Proof.
  unfold count. induction l as [|a l IH]; simpl; [reflexivity|].
  destruct (p a); simpl; rewrite IH; reflexivity.
Qed.

Lemma select_map_fst {A B : Type} (p : A * B -> bool) (a : list A) (b : list B) :
  select (map p (combine a b)) a = map fst (List.filter p (combine a b)).
Proof.
  unfold select. revert b.
  induction a as [|x a IH]; intros [|y b]; simpl; try reflexivity.
  destruct (p (x, y)); simpl; rewrite IH; reflexivity.
Qed.

Lemma select_map_snd {A B : Type} (p : A * B -> bool) (a : list A) (b : list B) :
  select (map p (combine a b)) b = map snd (List.filter p (combine a b)).
Proof.
  unfold select. revert b.
  induction a as [|x a IH]; intros [|y b]; simpl; try reflexivity.
  destruct (p (x, y)); simpl; rewrite IH; reflexivity.
Qed.

End SlopeFacts.



(** ** Loading and alignment *)

Lemma round_half_even_nat (r : nat) :
  round_half_even (Qc_of_nat r) = Z.of_nat r.
Proof.
  unfold round_half_even, Qc_of_nat.
  assert (Hf : Qfloor (Q2Qc (inject_Z (Z.of_nat r))) = Z.of_nat r).
  { cbn [Q2Qc this]. rewrite (Qfloor_comp _ _ (Qred_correct _)).
    apply Qfloor_Z. }
  rewrite Hf.
  replace (Q2Qc (inject_Z (Z.of_nat r)) - Q2Qc (inject_Z (Z.of_nat r)))%Qc
    with (Q2Qc 0) by ring.
  reflexivity.
Qed.

Lemma Qc_of_nat_nonzero (d : nat) : (0 < d)%nat -> Qc_of_nat d <> Q2Qc 0.
Proof.
  intros Hd E. unfold Qc_of_nat in E.
  apply (f_equal this) in E. cbn [Q2Qc this] in E.
  assert (Hq : inject_Z (Z.of_nat d) == 0).
  { rewrite <- (Qred_correct (inject_Z (Z.of_nat d))), E. reflexivity. }
  unfold Qeq, inject_Z in Hq. simpl in Hq. lia.
Qed.

Lemma zoom_len_exact (d r : nat) :
  (0 < d)%nat -> zoom_len d (Qc_of_nat r / Qc_of_nat d)%Qc = r.
Proof.
  intros Hd. unfold zoom_len.
  replace (Qc_of_nat d * (Qc_of_nat r / Qc_of_nat d))%Qc with (Qc_of_nat r).
  - rewrite round_half_even_nat. apply Nat2Z.id.
  - field. apply Qc_of_nat_nonzero, Hd.
Qed.

Lemma dict_get_set_eq {V : Type} (k : string) (v : V) (d : list (string * V)) :
  dict_get k (dict_set k v d) = Some v.
Proof.
  induction d as [|[k' v'] d IH]; simpl.
  - rewrite String.eqb_refl. reflexivity.
  - destruct (String.eqb k k') eqn:E; simpl.
    + rewrite String.eqb_refl. reflexivity.
    + rewrite E. exact IH.
Qed.

Lemma dict_get_set_ne {V : Type} (k k0 : string) (v : V)
      (d : list (string * V)) :
  k0 <> k -> dict_get k0 (dict_set k v d) = dict_get k0 d.
Proof.
  intros Hne. induction d as [|[k' v'] d IH]; simpl.
  - destruct (String.eqb k0 k) eqn:E; [|reflexivity].
    apply String.eqb_eq in E. contradiction.
  - destruct (String.eqb k k') eqn:E; simpl.
    + apply String.eqb_eq in E. subst k'.
      destruct (String.eqb k0 k) eqn:E'; [|reflexivity].
      apply String.eqb_eq in E'. contradiction.
    + destruct (String.eqb k0 k'); [reflexivity | exact IH].
Qed.

Lemma shape_eqb_eq (s1 s2 : nat * nat) : shape_eqb s1 s2 = true <-> s1 = s2.
Proof.
  destruct s1 as [a b], s2 as [c d]. unfold shape_eqb. simpl.
  rewrite andb_true_iff, !Nat.eqb_eq. split.
  - intros [-> ->]. reflexivity.
  - intros E. inversion E. auto.
Qed.

Section LoadingFacts.
Context {F : Type} `{FloatOps F}.
Variable affine : Type.
Variable astype_float32 : fval F -> fval F.
Variable log10 : F -> F.
Variable BASE_DIR : string.
Variable zoom_value : grid F -> Qc * Qc -> nat -> nat -> fval F.
Variable pearsonr_p : fval F -> nat -> fval F.
Variable fs : filesystem (F := F) affine.
Variables date_str aoi_key : string.
Variable p : pol.
Variable as_db : bool.

Lemma shape_map (f : fval F -> fval F) (g : grid F) :
  shape (map (map f) g) = shape g.
Proof.
  unfold shape. rewrite length_map. destruct g as [|row g]; simpl.
  - reflexivity.
  - rewrite length_map. reflexivity.
Qed.

Lemma load_raster_shape (path : string) (data : grid F) (tr : option affine) :
  load_raster astype_float32 log10 fs (Some path) as_db = (Some data, tr) ->
  exists src, fs_open fs path = Some src /\ shape data = shape (band src).
Proof.
  unfold load_raster. destruct (fs_open fs path) as [src|]; [|discriminate].
  intros E. inversion E; subst. exists src. split; [reflexivity|].
  destruct as_db; rewrite ?shape_map; reflexivity.
Qed.

Lemma zoom_shape (data : grid F) (rs : nat * nat) :
  (0 < fst (shape data))%nat -> (0 < snd (shape data))%nat ->
  (0 < fst rs)%nat ->
  shape (zoom zoom_value data
              ((Qc_of_nat (fst rs) / Qc_of_nat (fst (shape data)))%Qc,
               (Qc_of_nat (snd rs) / Qc_of_nat (snd (shape data)))%Qc))
  = rs.
Proof.
  intros H0 H1 Hr. unfold zoom. cbn [fst snd].
  rewrite !zoom_len_exact by assumption.
  destruct rs as [[|r0] r1]; cbn [fst snd] in *; [lia|].
  unfold shape. rewrite length_map, length_seq. simpl.
  rewrite length_map, length_seq. reflexivity.
Qed.

Hypothesis Hfs : rasters_nonempty fs.

Lemma load_hyp3_before :
  before_pyrosar
    (load_hyp3 astype_float32 log10 BASE_DIR fs date_str aoi_key p as_db
               {| data_dict := []; ref_transform := None; ref_shape := None |}).
Proof.
  unfold load_hyp3.
  destruct (path_exists fs _); [|repeat split; intros; discriminate].
  destruct (load_raster _ _ _ _ _) as [[data|] tr] eqn:E;
    [|repeat split; intros; discriminate].
  destruct (load_raster_shape _ E) as [src [Hsrc Hshape]].
  repeat split; cbn [data_dict ref_shape dict_set dict_get] in *;
    try reflexivity; try discriminate.
  - inversion H0; subst. rewrite Hshape. apply (Hfs _ Hsrc).
  - intros g Hg. inversion H0; subst.
    simpl in Hg. inversion Hg; subst. reflexivity.
Qed.

Lemma load_gee_before (st : load_state (F := F) affine) (m : string * string) :
  fst m <> "hyp3_gamma" -> fst m <> "pyrosar_kartverket" ->
  fst m <> "pyrosar_copernicus" ->
  before_pyrosar st ->
  before_pyrosar (load_gee astype_float32 log10 BASE_DIR fs date_str as_db st m).
Proof.
  intros N1 N2 N3 K. pose proof K as [K1 [K2 [K3 K4]]]. unfold load_gee.
  destruct (path_exists fs _); [|exact K].
  destruct (load_raster _ _ _ _ _) as [[data|] tr] eqn:E; [|exact K].
  destruct (load_raster_shape _ E) as [src [Hsrc Hshape]].
  unfold before_pyrosar. cbn [data_dict ref_shape].
  rewrite !dict_get_set_ne by (intros Heq; symmetry in Heq; contradiction).
  split; [exact K1|]. split; [exact K2|]. split.
  - destruct (ref_shape st); discriminate.
  - intros s Hs. destruct (ref_shape st) as [s0|] eqn:Eref.
    + inversion Hs; subst. apply K4. reflexivity.
    + inversion Hs; subst. split.
      * rewrite Hshape. apply (Hfs _ Hsrc).
      * intros g Hg. rewrite (K3 eq_refl) in Hg. discriminate.
Qed.

Lemma before_pyrosar_aligned (st : load_state (F := F) affine) :
  before_pyrosar st -> aligned_to_reference st.
Proof.
  intros [K1 [K2 [K3 K4]]] s Hs. destruct (K4 s Hs) as [Hpos Hh].
  split; [exact Hpos|]. intros k g [ -> | [ -> | -> ] ] Hg.
  - apply Hh, Hg.
  - rewrite K1 in Hg. discriminate.
  - rewrite K2 in Hg. discriminate.
Qed.

Lemma load_pyrosar_aligned (st : load_state (F := F) affine) (m : string * string) :
  aligned_to_reference st ->
  aligned_to_reference
    (load_pyrosar astype_float32 log10 BASE_DIR zoom_value fs date_str aoi_key
                  p as_db st m).
Proof.
  intros J. unfold load_pyrosar.
  destruct (find_pyrosar_file _ _ _ _ _ _) as [path|]; [|exact J].
  destruct (path_exists fs path); [|exact J].
  destruct (load_raster _ _ _ _ _) as [[data|] tr] eqn:E; [|exact J].
  destruct (load_raster_shape _ E) as [src [Hsrc Hshape]].
  destruct (Hfs _ Hsrc) as [Hrow Hcol]. rewrite <- Hshape in Hrow, Hcol.
  intros s Hs. cbn [data_dict ref_shape] in *.
  destruct (J s Hs) as [Hpos Hold]. split; [exact Hpos|].
  intros k g Hk Hg.
  destruct (String.eqb k (snd m)) eqn:Ek.
  - apply String.eqb_eq in Ek. subst k.
    rewrite dict_get_set_eq in Hg. inversion Hg; subst g. rewrite Hs.
    destruct (shape_eqb (shape data) s) eqn:Es; cbn [negb].
    + apply shape_eqb_eq, Es.
    + apply zoom_shape; assumption.
  - apply String.eqb_neq in Ek.
    rewrite dict_get_set_ne in Hg by exact Ek. eapply Hold; eassumption.
Qed.

Lemma comparison_rows_guard (ref_method : string) (ref_data : grid F)
      (dd : list (string * grid F)) (row : comparison_row) :
  In row (comparison_rows pearsonr_p date_str aoi_key p ref_method ref_data dd) ->
  exists g, In (cr_method row, g) dd /\
            cr_method row <> ref_method /\
            shape g = shape ref_data /\
            cr_rmse row = calculate_rmse g ref_data /\
            cr_bias row = calculate_bias g ref_data /\
            cr_r row = fst (calculate_correlation pearsonr_p g ref_data).
Proof.
  unfold comparison_rows. intros Hrow. apply in_flat_map in Hrow.
  destruct Hrow as [[k g] [Hkv Hrow]]. cbn [fst snd] in Hrow.
  destruct (String.eqb k ref_method) eqn:Ek; [destruct Hrow|].
  destruct (shape_eqb (shape g) (shape ref_data)) eqn:Es;
    cbn [negb] in Hrow; [|destruct Hrow].
  destruct Hrow as [<-|[]]. cbn [cr_method cr_rmse cr_bias cr_r].
  exists g. repeat split; auto.
  - apply String.eqb_neq, Ek.
  - apply shape_eqb_eq, Es.
Qed.

(** C1 (amended). When rasters on disk are non-empty and a reference
    shape has been established (by the HyP3 grid, else by the first GEE
    grid loaded), the HyP3 grid and every PyroSAR grid returned by
    [load_all_methods] have that shape: PyroSAR grids are resampled to
    it.  Every row of [analyze_inter_product] is computed from a grid
    whose shape equals that of the reference grid, other grids being
    skipped. *)
Theorem C1_alignment :
  let st := load_all_state astype_float32 log10 BASE_DIR zoom_value fs
                           date_str aoi_key p as_db in
  load_all_methods astype_float32 log10 BASE_DIR zoom_value fs
                   date_str aoi_key p as_db
  = (data_dict st, ref_transform st) /\
  (forall s k g,
      ref_shape st = Some s ->
      k = "hyp3_gamma" \/ k = "pyrosar_kartverket"
      \/ k = "pyrosar_copernicus" ->
      dict_get k (data_dict st) = Some g -> shape g = s) /\
  (forall ref_method ref_data row,
      In row (comparison_rows pearsonr_p date_str aoi_key p ref_method
                              ref_data (data_dict st)) ->
      exists g, In (cr_method row, g) (data_dict st) /\
                shape g = shape ref_data).
Proof.
  intros st. split; [reflexivity|]. split.
  - assert (J : aligned_to_reference st).
    { unfold st, load_all_state, pyrosar_methods, gee_methods.
      cbn [fold_left].
      repeat apply load_pyrosar_aligned. apply before_pyrosar_aligned.
      repeat (apply load_gee_before; [discriminate..|]).
      apply load_hyp3_before. }
    intros s k g Hs Hk Hg. destruct (J s Hs) as [_ HJ]. eapply HJ; eassumption.
  - intros ref_method ref_data row Hrow.
    destruct (comparison_rows_guard _ _ _ _ Hrow) as [g [Hin [_ [Hs _]]]].
    exists g. split; assumption.
Qed.
End LoadingFacts.

Lemma example_fs_nonempty : rasters_nonempty example_fs.
Proof.
  intros path src. unfold example_fs. cbn [fs_open].
  repeat (destruct (String.eqb path _);
          [intros E; inversion E; subst; simpl; lia|]).
  discriminate.
Qed.

Lemma C1_alignment_witness :
  match dict_get "pyrosar_kartverket" (data_dict example_state) with
  | Some g => shape g = (2, 2)%nat
  | None => False
  end.
Proof.
  destruct (dict_get "pyrosar_kartverket" (data_dict example_state))
    as [g|] eqn:E.
  - apply (proj1 (proj2 (@C1_alignment Qc Qc_ops unit (fun v => v) (fun x => x)
                           "." (fun _ _ _ _ => NaN) (fun _ _ => NaN)
                           example_fs "20170613" "jorde" VV true
                           example_fs_nonempty))
             (2, 2)%nat "pyrosar_kartverket" g).
    + reflexivity.
    + auto.
    + exact E.
  - vm_compute in E. discriminate.
Defined.

(** The GEE grid of the small unit keeps its 1x1 shape beside the 2x2
    reference, and [analyze_single_date] computes statistics for it. *)
Lemma C1_alignment_counterexample :
  ref_shape example_state = Some (2, 2)%nat /\
  (exists g, dict_get "gee_standard" (data_dict example_state) = Some g /\
             shape g = (1, 1)%nat) /\
  ~ every_grid_aligned example_state /\
  (exists rows,
      analyze_single_date (fun v => v) (fun x => x) "." (fun _ _ _ _ => NaN)
                          example_fs "20170613" "jorde" VV = Some rows /\
      map (fun r => sr_method r) rows
      = ["hyp3_gamma"; "gee_standard"; "pyrosar_kartverket"]).
Proof.
  split; [reflexivity|]. split.
  - eexists. split; reflexivity.
  - split.
    + intros Hc.
      specialize (Hc "gee_standard" _ (2, 2)%nat eq_refl eq_refl).
      discriminate Hc.
    + eexists. split; reflexivity.
Qed.

(** ** Self-correlation: who wins the search *)

Section SelfSearch.
Context {F : Type} `{FloatOrder F}.

Lemma f_leb_one (v : F) :
  f_ltb (f_of_Z 1) v = false -> f_leb v (f_of_Z 1) = true.
Proof.
  intros Hv. unfold f_leb. destruct (f_ltb v (f_of_Z 1)) eqn:E; [reflexivity|].
  rewrite (f_ltb_total _ _ E Hv). apply f_eqb_refl.
Qed.

Lemma score_at_most_one (ref test : fgrid F) (c : Z * Z) (s : fval F) :
  candidate_score ref test c = Some s -> isfinite s = true ->
  fv_leb s (Fin (f_of_Z 1)) = true.
Proof.
  intros Hs Hfin. destruct (candidate_score_corr _ _ _ Hs) as [x [y ->]].
  destruct (corrcoef_range x y) as [E|[v [E [_ Hhi]]]]; rewrite E in *;
    [discriminate|].
  simpl. apply f_leb_one, Hhi.
Qed.

Lemma scan_before_irrefl (c : Z * Z) : ~ scan_before c c.
Proof. unfold scan_before. lia. Qed.

Lemma scan_before_asym (c c' : Z * Z) :
  scan_before c c' -> ~ scan_before c' c.
Proof. unfold scan_before. lia. Qed.

(** The zero shift wins when it scores 1 and no earlier shift does. *)
Lemma offset_zero_wins (ref test : grid F) (max_shift : Z) :
  fv_ltb (np_std (concat (zero_nonfinite ref))) (Fin eps_std) = false ->
  fv_ltb (np_std (concat (zero_nonfinite test))) (Fin eps_std) = false ->
  In (0, 0) (scan_order max_shift) ->
  candidate_score (zscore (zero_nonfinite ref)) (zscore (zero_nonfinite test))
                  (0, 0) = Some (Fin (f_of_Z 1)) ->
  (forall c s,
      In c (scan_order max_shift) -> scan_before c (0, 0) ->
      candidate_score (zscore (zero_nonfinite ref))
                      (zscore (zero_nonfinite test)) c = Some s ->
      s <> Fin (f_of_Z 1)) ->
  find_offset ref test max_shift = (0, 0).
Proof.
  intros Href Htest Hin H00 Hearlier.
  destruct (search_result_cases ref test max_shift Href Htest)
    as [_ [Hsorted [_ [_ [[Hr _]|[l1 [l2 [s [Hscan [Hs [Hfin [Hfirst Hmax]]]]]]]]]]]];
    [exact Hr|].
  set (r := find_offset ref test max_shift) in *.
  pose proof Hin as Hin'. rewrite Hscan in Hin'. apply in_app_or in Hin'.
  destruct Hin' as [Hin'|[Hin'|Hin']].
  - pose proof (Hfirst _ _ Hin' H00) as Hc.
    rewrite (score_at_most_one _ _ _ Hs Hfin) in Hc. discriminate.
  - exact Hin'.
  - exfalso. pose proof (Hmax _ _ Hin' H00) as Hlt.
    pose proof (score_at_most_one _ _ _ Hs Hfin) as Hle.
    destruct s as [v| | |]; try discriminate. simpl in Hlt, Hle.
    unfold f_leb in Hle. rewrite Hlt in Hle. simpl in Hle.
    apply f_eqb_eq in Hle. subst v.
    apply (Hearlier r (Fin (f_of_Z 1))); [| |exact Hs|reflexivity].
    + rewrite Hscan. apply in_or_app. right. left. reflexivity.
    + rewrite Hscan in Hsorted. apply (sorted_split _ _ _ Hsorted), Hin'.
Qed.

(** The zero shift loses as soon as an earlier shift scores 1. *)
Lemma offset_earlier_tie (ref test : grid F) (max_shift : Z) (c0 : Z * Z) :
  fv_ltb (np_std (concat (zero_nonfinite ref))) (Fin eps_std) = false ->
  fv_ltb (np_std (concat (zero_nonfinite test))) (Fin eps_std) = false ->
  In c0 (scan_order max_shift) -> scan_before c0 (0, 0) ->
  candidate_score (zscore (zero_nonfinite ref)) (zscore (zero_nonfinite test))
                  c0 = Some (Fin (f_of_Z 1)) ->
  find_offset ref test max_shift <> (0, 0).
Proof.
  intros Href Htest Hin Hbefore Hc0 Hr.
  destruct (search_result_cases ref test max_shift Href Htest)
    as [_ [Hsorted [_ [_ [[_ Hnan]|[l1 [l2 [s [Hscan [Hs [Hfin [Hfirst Hmax]]]]]]]]]]]].
  - specialize (Hnan _ _ Hin Hc0). discriminate.
  - rewrite Hr in *. pose proof Hin as Hin'. rewrite Hscan in Hin'.
    apply in_app_or in Hin'. destruct Hin' as [Hin'|[Hin'|Hin']].
    + pose proof (Hfirst _ _ Hin' Hc0) as Hc.
      rewrite (score_at_most_one _ _ _ Hs Hfin) in Hc. discriminate.
    + subst c0. exact (scan_before_irrefl Hbefore).
    + rewrite Hscan in Hsorted.
      exact (scan_before_asym Hbefore (sorted_split _ _ _ Hsorted _ Hin')).
Qed.
End SelfSearch.

(** The reals satisfy the order facts. *)
Lemma R_float_order : FloatOrder R.
Proof.
  constructor; cbn [f_ltb f_eqb f_of_Z R_ops]; unfold R_ltb, R_eqb.
  - intros x. destruct (Rlt_dec x x); [lra | reflexivity].
  - intros x y z. destruct (Rlt_dec x y), (Rlt_dec y z), (Rlt_dec x z);
      intros; try discriminate; try reflexivity. lra.
  - intros x y. destruct (Rlt_dec x y), (Rlt_dec y x);
      intros; try discriminate. lra.
  - intros x y. destruct (Req_dec_T x y); [auto | discriminate].
  - intros x. destruct (Req_dec_T x x); [reflexivity | contradiction].
  - intros a b. destruct (Rlt_dec (IZR a) (IZR b)) as [Hlt|Hge].
    + apply lt_IZR in Hlt. symmetry. apply Z.ltb_lt, Hlt.
    + symmetry. apply Z.ltb_ge. destruct (Z.le_gt_cases b a) as [Hle|Hgt];
        [exact Hle|]. exfalso. apply Hge, IZR_lt, Hgt.
Qed.

(** ** Masks of a grid against itself *)

Section SelfMask.
Context {F : Type} `{FloatOps F}.

Lemma mask_and_self (m : list bool) : mask_and m m = m.
Proof.
  unfold mask_and. induction m as [|b m IH]; simpl; [reflexivity|].
  rewrite IH. destruct b; reflexivity.
Qed.

Lemma select_self {A : Type} (q : A -> bool) (l : list A) :
  select (map q l) l = List.filter q l.
Proof.
  unfold select. induction l as [|a l IH]; simpl; [reflexivity|].
  destruct (q a); simpl; rewrite IH; reflexivity.
Qed.

Lemma count_map {A : Type} (q : A -> bool) (l : list A) :
  count (map q l) = length (List.filter q l).
Proof. apply count_map_filter. Qed.

Lemma map_nth_all {A : Type} (l : list A) (d : A) :
  map (fun j => nth j l d) (seq 0 (length l)) = l.
Proof.
  apply (nth_ext _ _ d d).
  - rewrite length_map, length_seq. reflexivity.
  - intros n Hn. rewrite length_map, length_seq in Hn.
    rewrite (nth_indep _ d (nth 0 l d)) by (rewrite length_map, length_seq; exact Hn).
    rewrite (map_nth (fun j => nth j l d)), seq_nth by exact Hn.
    reflexivity.
Qed.

Lemma shift_cells_zero {A : Type} (fill : A) (a : list (list A)) :
  rectangular a -> shift_cells fill a 0 0 = a.
Proof.
  intros Hrect. unfold shift_cells.
  apply (nth_ext _ _ [] []).
  - rewrite length_map, length_seq. reflexivity.
  - intros i Hi. rewrite length_map, length_seq in Hi.
    rewrite (nth_indep _ []
               ((fun i0 => map (fun j => cell_at fill a (Z.of_nat i0 - 0)
                                                 (Z.of_nat j - 0))
                               (seq 0 (length (hd [] a)))) 0%nat))
      by (rewrite length_map, length_seq; exact Hi).
    rewrite (map_nth (fun i0 => map (fun j => cell_at fill a (Z.of_nat i0 - 0)
                                                      (Z.of_nat j - 0))
                                    (seq 0 (length (hd [] a))))).
    rewrite seq_nth by exact Hi. cbn [Nat.add].
    rewrite <- (Hrect (nth i a [])) by (apply nth_In; exact Hi).
    rewrite <- (map_nth_all (nth i a []) fill) at 2.
    apply map_ext. intros j. unfold cell_at.
    rewrite !Z.sub_0_r, !Nat2Z.id.
    destruct (0 <=? Z.of_nat i) eqn:E1; [|apply Z.leb_gt in E1; lia].
    destruct (0 <=? Z.of_nat j) eqn:E2; [|apply Z.leb_gt in E2; lia].
    reflexivity.
Qed.

Lemma ndimage_shift_zero (a : fgrid F) :
  rectangular a -> ndimage_shift a 0 0 = a.
Proof. apply shift_cells_zero. Qed.

Lemma rectangular_map {A B : Type} (f : A -> B) (a : list (list A)) :
  rectangular a -> rectangular (map (map f) a).
Proof.
  intros Hrect row Hrow. apply in_map_iff in Hrow.
  destruct Hrow as [r [<- Hr]]. rewrite length_map, (Hrect r Hr).
  destruct a as [|r0 a]; simpl; [reflexivity|]. rewrite length_map. reflexivity.
Qed.

Lemma zscore_rectangular (g : grid F) :
  rectangular g -> rectangular (zscore (zero_nonfinite g)).
Proof.
  intros Hrect. unfold zscore, zero_nonfinite.
  apply rectangular_map, rectangular_map, Hrect.
Qed.

Lemma zero_shift_score (z : fgrid F) :
  rectangular z ->
  candidate_score z z (0, 0)
  = if (50 <=? length (List.filter nonzero (concat z)))%nat
    then Some (corrcoef (List.filter nonzero (concat z))
                        (List.filter nonzero (concat z)))
    else None.
Proof.
  intros Hrect. unfold candidate_score. cbn [fst snd].
  rewrite (ndimage_shift_zero Hrect). unfold overlap_mask.
  rewrite mask_and_self, count_map, select_self. reflexivity.
Qed.
End SelfMask.

(** ** Exact arithmetic: sums, variance and self-correlation *)

Section RealFacts.
Local Open Scope R_scope.

Lemma R_fold_add (l : list R) (a : R) : fold_left Rplus l a = a + Rsum l.
Proof.
  revert a. induction l as [|x l IH]; intros a; simpl.
  - lra.
  - rewrite IH. lra.
Qed.

Lemma R_f_sum (l : list R) : f_sum l = Rsum l.
Proof. unfold f_sum. rewrite R_fold_add. simpl. lra. Qed.

Lemma R_of_nat_succ (n : nat) : IZR (Z.of_nat (S n)) = IZR (Z.of_nat n) + 1.
Proof. rewrite Nat2Z.inj_succ, succ_IZR. reflexivity. Qed.

Lemma R_of_nat_pos (n : nat) : (0 < n)%nat -> 0 < IZR (Z.of_nat n).
Proof. intros Hn. apply IZR_lt. lia. Qed.

Lemma Rsum_zscore (l : list R) (m s : R) :
  Rsum (map (fun v => (v - m) / s) l)
  = (Rsum l - IZR (Z.of_nat (length l)) * m) / s.
Proof.
  induction l as [|x l IH].
  - simpl. unfold Rdiv. ring.
  - cbn [map Rsum fold_right length]. fold (Rsum (map (fun v => (v - m) / s) l)).
    fold (Rsum l). rewrite IH, R_of_nat_succ. unfold Rdiv. ring.
Qed.

Lemma Rsum_zscore_zero (l : list R) (s : R) :
  l <> [] -> Rsum (map (fun v => (v - f_mean l) / s) l) = 0.
Proof.
  intros Hl. rewrite Rsum_zscore. unfold f_mean, f_of_nat.
  cbn [f_div f_of_Z R_ops]. rewrite R_f_sum.
  assert (Hn : 0 < IZR (Z.of_nat (length l))).
  { apply R_of_nat_pos. destruct l; [congruence | simpl; lia]. }
  replace (IZR (Z.of_nat (length l)) * (Rsum l / IZR (Z.of_nat (length l))))
    with (Rsum l) by (field; lra).
  unfold Rdiv. ring.
Qed.

Lemma R_nonzero_true (v : R) : nonzero v = true <-> v <> 0.
Proof.
  unfold nonzero. cbn [f_eqb f_of_Z R_ops]. unfold R_eqb.
  destruct (Req_dec_T v 0); simpl; split; intros; congruence.
Qed.

Lemma R_nonzero_false (v : R) : nonzero v = false <-> v = 0.
Proof.
  unfold nonzero. cbn [f_eqb f_of_Z R_ops]. unfold R_eqb.
  destruct (Req_dec_T v 0); simpl; split; intros; congruence.
Qed.

Lemma Rsum_filter_nonzero (l : list R) :
  Rsum (List.filter nonzero l) = Rsum l.
Proof.
  induction l as [|x l IH]; [reflexivity|]. simpl.
  destruct (nonzero x) eqn:E.
  - simpl. fold (Rsum (List.filter nonzero l)). fold (Rsum l). rewrite IH.
    reflexivity.
  - apply R_nonzero_false in E. fold (Rsum l). rewrite IH. lra.
Qed.

Lemma Rsum_sq_nonneg (l : list R) : 0 <= Rsum (map (fun v => v * v) l).
Proof.
  induction l as [|x l IH]; simpl; [lra|].
  fold (Rsum (map (fun v => v * v) l)). nra.
Qed.

Lemma Rsum_sq_pos (l : list R) :
  (exists v, In v l /\ v <> 0) -> 0 < Rsum (map (fun v => v * v) l).
Proof.
  intros [v [Hv Hne]]. induction l as [|x l IH]; [destruct Hv|].
  simpl. fold (Rsum (map (fun w => w * w) l)).
  pose proof (Rsum_sq_nonneg l) as Hl.
  destruct Hv as [->|Hv].
  - assert (0 < v * v) by nra. lra.
  - specialize (IH Hv). nra.
Qed.

Lemma R_f_dot_self (x : list R) : f_dot x x = Rsum (map (fun v => v * v) x).
Proof.
  unfold f_dot. rewrite R_f_sum. f_equal.
  induction x as [|a x IH]; [reflexivity|].
  cbn [combine map fst snd]. rewrite IH. reflexivity.
Qed.

Lemma cov1_self_pos (x : list R) :
  (2 <= length x)%nat ->
  (exists v, In v x /\ v <> f_mean x) ->
  0 < cov1 x x.
Proof.
  intros Hlen [v [Hv Hne]]. unfold cov1. rewrite R_f_dot_self.
  cbn [f_mul f_div f_of_Z R_ops].
  apply Rmult_lt_0_compat.
  - apply Rsum_sq_pos. exists (v - f_mean x). split.
    + unfold centered. apply in_map_iff. exists v. split; [reflexivity|exact Hv].
    + lra.
  - apply Rdiv_lt_0_compat; [lra|]. apply IZR_lt. lia.
Qed.

Lemma R_eqb_false (x y : R) : x <> y -> R_eqb x y = false.
Proof. intros Hne. unfold R_eqb. destruct (Req_dec_T x y); congruence. Qed.

Lemma R_eqb_true (x : R) : R_eqb x x = true.
Proof. unfold R_eqb. destruct (Req_dec_T x x); congruence. Qed.

Lemma R_ltb_false (x y : R) : y <= x -> R_ltb x y = false.
Proof. intros Hle. unfold R_ltb. destruct (Rlt_dec x y); [lra|reflexivity]. Qed.

Lemma R_ltb_true (x y : R) : x < y -> R_ltb x y = true.
Proof. intros Hlt. unfold R_ltb. destruct (Rlt_dec x y); [reflexivity|lra]. Qed.

(** In exact arithmetic a sample with positive variance correlates with
    itself at exactly 1. *)
Lemma corrcoef_self (x : list R) : 0 < cov1 x x -> corrcoef x x = Fin 1.
Proof.
  intros Hc. unfold corrcoef. set (c := cov1 x x) in *.
  assert (Hs : 0 < sqrt c) by (apply sqrt_lt_R0, Hc).
  unfold fv_div. cbn [f_eqb f_div f_of_Z f_sqrt R_ops].
  rewrite (R_eqb_false (x := sqrt c) (y := 0)) by lra.
  assert (E : c / sqrt c / sqrt c = 1).
  { rewrite <- (sqrt_sqrt c) at 1 by lra. field. lra. }
  rewrite E. unfold fv_clip. cbn [f_ltb R_ops].
  rewrite (R_ltb_false (x := 1) (y := -1)) by lra.
  rewrite (R_ltb_false (x := 1) (y := 1)) by lra.
  reflexivity.
Qed.
End RealFacts.

(** ** The offset of a grid against itself, in exact arithmetic *)

Section SelfOffset.
Local Open Scope R_scope.

Lemma zscore_sum_zero (a : fgrid R) :
  concat a <> [] -> Rsum (concat (zscore a)) = 0.
Proof.
  intros Hne. unfold zscore. rewrite <- concat_map.
  apply (Rsum_zscore_zero (f_std (concat a)) Hne).
Qed.

Lemma zscore_self_score (a : fgrid R) :
  rectangular a ->
  (50 <= length (List.filter nonzero (concat (zscore a))))%nat ->
  candidate_score (zscore a) (zscore a) (0, 0)%Z = Some (Fin 1).
Proof.
  intros Hrect Hlen.
  assert (Hrz : rectangular (zscore a)) by (apply rectangular_map, Hrect).
  rewrite (zero_shift_score Hrz).
  set (x := List.filter nonzero (concat (zscore a))) in *.
  destruct (50 <=? length x)%nat eqn:E; [|apply Nat.leb_gt in E; lia].
  f_equal. apply corrcoef_self, cov1_self_pos; [lia|].
  assert (Hza : concat a <> []).
  { intros Hnil. unfold x, zscore in Hlen.
    rewrite <- concat_map, Hnil in Hlen. simpl in Hlen. lia. }
  assert (Hmean : f_mean x = 0).
  { unfold f_mean. cbn [f_div R_ops]. rewrite R_f_sum. unfold x.
    rewrite Rsum_filter_nonzero, (zscore_sum_zero a Hza). unfold Rdiv. ring. }
  destruct x as [|v x'] eqn:Ex; [simpl in Hlen; lia|].
  exists v. split; [left; reflexivity|]. rewrite Hmean.
  apply R_nonzero_true.
  assert (Hin : In v (List.filter nonzero (concat (zscore a)))).
  { fold x. rewrite Ex. left. reflexivity. }
  apply filter_In in Hin. apply Hin.
Qed.

End SelfOffset.

(** ** The mask depends on the zero pattern only *)

Lemma shift_cells_map {A B : Type} (q : A -> B) (fill : A)
      (a : list (list A)) (dy dx : Z) :
  map (map q) (shift_cells fill a dy dx)
  = shift_cells (q fill) (map (map q) a) dy dx.
Proof.
  unfold shift_cells. rewrite map_map, length_map.
  replace (length (hd [] (map (map q) a))) with (length (hd [] a))
    by (destruct a; simpl; rewrite ?length_map; reflexivity).
  apply map_ext. intros i. rewrite map_map. apply map_ext. intros j.
  unfold cell_at. destruct ((0 <=? Z.of_nat i - dy) && (0 <=? Z.of_nat j - dx));
    [|reflexivity].
  rewrite <- (map_nth q).
  rewrite <- (map_nth (map q) a []). reflexivity.
Qed.

Lemma overlap_mask_pattern (ref test : fgrid R) (dy dx : Z) :
  overlap_mask ref (ndimage_shift test dy dx)
  = mask_and (concat (map (map nonzero) ref))
             (concat (shift_cells false (map (map nonzero) test) dy dx)).
Proof.
  unfold overlap_mask, ndimage_shift. rewrite !concat_map, shift_cells_map.
  replace (nonzero (f_of_Z 0)) with false; [reflexivity|].
  symmetry. apply R_nonzero_false. reflexivity.
Qed.

(** ** Grids of two constant rows *)

Section TwoRows.
Local Open Scope R_scope.
Variable n : nat.
Hypothesis Hn : (0 < n)%nat.

Lemma Rsum_app (l1 l2 : list R) : Rsum (l1 ++ l2) = Rsum l1 + Rsum l2.
Proof.
  induction l1 as [|x l1 IH]; simpl; [lra|].
  fold (Rsum (l1 ++ l2)). fold (Rsum l1). rewrite IH. lra.
Qed.

Lemma Rsum_repeat (v : R) (k : nat) :
  Rsum (repeat v k) = IZR (Z.of_nat k) * v.
Proof.
  induction k as [|k IH].
  - unfold Rsum. simpl. ring.
  - change (Rsum (repeat v (S k))) with (v + Rsum (repeat v k)).
    rewrite IH, R_of_nat_succ. ring.
Qed.

Lemma two_rows_zero_nonfinite (a b : R) :
  zero_nonfinite (two_rows n a b) = [repeat a n; repeat b n].
Proof.
  unfold zero_nonfinite, two_rows. cbn [map]. rewrite !map_repeat.
  reflexivity.
Qed.

Lemma two_rows_mean :
  f_mean (concat [repeat 1 n; repeat 3 n]) = 2.
Proof.
  unfold f_mean, f_of_nat. cbn [f_div f_of_Z R_ops concat].
  rewrite R_f_sum, app_nil_r, Rsum_app, !Rsum_repeat.
  rewrite length_app, !repeat_length, Nat2Z.inj_add, plus_IZR.
  pose proof (R_of_nat_pos Hn). field. lra.
Qed.

Lemma two_rows_std :
  f_std (concat [repeat 1 n; repeat 3 n]) = 1.
Proof.
  unfold f_std, f_var. rewrite two_rows_mean.
  unfold f_mean, f_of_nat, f_sq.
  cbn [f_div f_sub f_mul f_sqrt f_of_Z R_ops concat].
  rewrite R_f_sum, app_nil_r, length_map, map_app, !map_repeat.
  rewrite Rsum_app, !Rsum_repeat.
  rewrite length_app, !repeat_length, Nat2Z.inj_add, plus_IZR.
  pose proof (R_of_nat_pos Hn).
  replace ((IZR (Z.of_nat n) * ((1 - 2) * (1 - 2))
            + IZR (Z.of_nat n) * ((3 - 2) * (3 - 2)))
           / (IZR (Z.of_nat n) + IZR (Z.of_nat n))) with 1 by (field; lra).
  apply sqrt_1.
Qed.

Lemma two_rows_nondegenerate :
  fv_ltb (np_std (concat (zero_nonfinite (two_rows n 1 3)))) (Fin eps_std)
  = false.
Proof.
  rewrite two_rows_zero_nonfinite.
  assert (Hne : concat [repeat 1 n; repeat 3 n] <> []).
  { destruct n; [lia|]. discriminate. }
  unfold np_std. destruct (concat [repeat 1 n; repeat 3 n]) eqn:E;
    [congruence|]. rewrite <- E, two_rows_std.
  unfold fv_ltb, eps_std. cbn [f_ltb f_div f_of_Z R_ops].
  apply R_ltb_false. lra.
Qed.

Lemma two_rows_zscore :
  zscore (zero_nonfinite (two_rows n 1 3))
  = [repeat ((1 - 2) / 1) n; repeat ((3 - 2) / 1) n].
Proof.
  rewrite two_rows_zero_nonfinite. unfold zscore.
  rewrite two_rows_mean, two_rows_std. cbn [map]. rewrite !map_repeat.
  reflexivity.
Qed.

Lemma two_rows_pattern :
  map (map nonzero) (zscore (zero_nonfinite (two_rows n 1 3)))
  = [repeat true n; repeat true n].
Proof.
  rewrite two_rows_zscore. cbn [map]. rewrite !map_repeat.
  replace (nonzero ((1 - 2) / 1)) with true
    by (symmetry; apply R_nonzero_true; lra).
  replace (nonzero ((3 - 2) / 1)) with true
    by (symmetry; apply R_nonzero_true; lra).
  reflexivity.
Qed.

Lemma two_rows_mask (dy dx : Z) :
  overlap_mask (zscore (zero_nonfinite (two_rows n 1 3)))
               (ndimage_shift (zscore (zero_nonfinite (two_rows n 1 3))) dy dx)
  = mask_and (concat [repeat true n; repeat true n])
             (concat (shift_cells false [repeat true n; repeat true n] dy dx)).
Proof. rewrite overlap_mask_pattern, two_rows_pattern. reflexivity. Qed.

Lemma two_rows_rectangular (a b : R) : rectangular (two_rows n a b).
Proof.
  intros row [<-|[<-|[]]]; simpl; rewrite !repeat_length; reflexivity.
Qed.
End TwoRows.

(** ** Two concrete self-searches *)

Section ConcreteSearch.
Local Open Scope R_scope.

(** On two constant rows of 27 cells the shift [(0, -1)] overlaps the
    grid in 52 identical pixels and so correlates with it at exactly 1. *)
Lemma two_rows_27_tie :
  candidate_score (zscore (zero_nonfinite (two_rows 27 1 3)))
                  (zscore (zero_nonfinite (two_rows 27 1 3))) (0, -1)%Z
  = Some (Fin 1).
Proof.
  unfold candidate_score. cbn [fst snd].
  rewrite (two_rows_mask (n := 27)) by lia.
  set (M := mask_and _ _).
  assert (HM : M = repeat true 26 ++ [false] ++ repeat true 26 ++ [false])
    by (vm_compute; reflexivity).
  assert (Hcnt : (50 <=? count M)%nat = true)
    by (rewrite HM; vm_compute; reflexivity).
  rewrite Hcnt, HM. rewrite (two_rows_zscore (n := 27)) by lia.
  assert (Hab : (1 - 2) / 1 <> (3 - 2) / 1) by lra.
  generalize dependent ((1 - 2) / 1). generalize dependent ((3 - 2) / 1).
  intros b a Hab.
  assert (Hx : select (repeat true 26 ++ [false] ++ repeat true 26 ++ [false])
                      (concat [repeat a 27; repeat b 27])
               = repeat a 26 ++ repeat b 26) by (vm_compute; reflexivity).
  assert (Hy : select (repeat true 26 ++ [false] ++ repeat true 26 ++ [false])
                      (concat (ndimage_shift [repeat a 27; repeat b 27] 0 (-1)))
               = repeat a 26 ++ repeat b 26) by (vm_compute; reflexivity).
  rewrite Hx, Hy. f_equal. apply corrcoef_self, cov1_self_pos.
  - rewrite length_app, !repeat_length. lia.
  - destruct (Req_dec_T a (f_mean (repeat a 26 ++ repeat b 26))) as [E|E].
    + exists b. split; [apply in_or_app; right; left; reflexivity|].
      rewrite <- E. auto.
    + exists a. split; [apply in_or_app; left; left; reflexivity | exact E].
Qed.

(** On two constant rows of 25 cells only the zero shift reaches 50
    jointly non-zero pixels. *)
Lemma two_rows_25_gate (c : Z * Z) :
  In c (scan_order 3) ->
  (50 <= count (overlap_mask
                  (zscore (zero_nonfinite (two_rows 25 1 3)))
                  (ndimage_shift (zscore (zero_nonfinite (two_rows 25 1 3)))
                                 (fst c) (snd c))))%nat ->
  c = (0, 0)%Z.
Proof.
  intros Hin Hc. rewrite (two_rows_mask (n := 25)) in Hc by lia.
  assert (Hall :
    forallb (fun c : Z * Z =>
               negb (50 <=? count
                       (mask_and (concat [repeat true 25; repeat true 25])
                          (concat (shift_cells false
                                     [repeat true 25; repeat true 25]
                                     (fst c) (snd c)))))%nat
               || ((fst c =? 0)%Z && (snd c =? 0)%Z))
            (scan_order 3) = true) by (vm_compute; reflexivity).
  rewrite forallb_forall in Hall. specialize (Hall c Hin).
  apply Nat.leb_le in Hc. rewrite Hc in Hall. simpl in Hall.
  apply andb_true_iff in Hall. destruct Hall as [H1 H2].
  apply Z.eqb_eq in H1, H2. destruct c as [dy dx].
  cbn [fst snd] in H1, H2. subst. reflexivity.
Qed.
End ConcreteSearch.



(** * Further properties of the scripts *)

(** ** The search window of [find_offset] *)

Section SearchWindow.
Context {F : Type} `{FloatOps F}.

Lemma fold_offset_member (ref test : fgrid F) (l : list (Z * Z))
      (st : search_state) :
  snd (fst (fold_left (offset_step ref test) l st)) = snd (fst st) \/
  In (snd (fst (fold_left (offset_step ref test) l st))) l.
Proof.
  revert st. induction l as [|c l IH]; intros st; simpl; [left; reflexivity|].
  destruct (IH (offset_step ref test st c)) as [E|E]; [|right; right; exact E].
  rewrite E. unfold offset_step. cbn [fst snd].
  destruct (candidate_score ref test c) as [s|]; [|left; reflexivity].
  destruct (fv_ltb (fst (fst st)) s); [right; left|left]; reflexivity.
Qed.

Lemma zrange_length (lo hi : Z) : length (zrange lo hi) = Z.to_nat (hi - lo).
Proof. unfold zrange. rewrite length_map, length_seq. reflexivity. Qed.

Lemma flat_map_const_length {A B : Type} (f : A -> list B) (k : nat)
      (l : list A) :
  (forall x, length (f x) = k) -> length (flat_map f l) = (length l * k)%nat.
Proof.
  intros Hf. induction l as [|a l IH]; simpl; [reflexivity|].
  rewrite length_app, IH, Hf. reflexivity.
Qed.

Lemma scan_order_length (max_shift : Z) :
  0 <= max_shift ->
  Z.of_nat (length (scan_order max_shift))
  = (2 * max_shift + 1) * (2 * max_shift + 1).
Proof.
  intros Hm. unfold scan_order.
  rewrite (@flat_map_const_length Z (Z * Z) _
             (Z.to_nat (max_shift + 1 - - max_shift)))
    by (intros x; rewrite length_map; apply zrange_length).
  rewrite zrange_length. lia.
Qed.

Lemma scan_order_negative (max_shift : Z) :
  max_shift < 0 -> scan_order max_shift = [].
Proof.
  intros Hm. unfold scan_order, zrange.
  replace (Z.to_nat (max_shift + 1 - - max_shift)) with 0%nat by lia.
  reflexivity.
Qed.

Lemma sorted_NoDup (l : list (Z * Z)) :
  StronglySorted scan_before l -> List.NoDup l.
Proof.
  induction 1 as [|a l Hl IH Ha]; constructor; [|exact IH].
  intros Hin. rewrite List.Forall_forall in Ha.
  exact (scan_before_irrefl (Ha a Hin)).
Qed.

(** X1. Whatever the grids, the shift [find_offset] returns lies in the
    window it was asked to search: both components are between
    [-max_shift] and [max_shift]; with a negative [max_shift] the loops
    are empty and the result is [(0, 0)]. *)
Theorem find_offset_in_window (ref test : grid F) (max_shift : Z) :
  (0 <= max_shift ->
   - max_shift <= fst (find_offset ref test max_shift) <= max_shift /\
   - max_shift <= snd (find_offset ref test max_shift) <= max_shift) /\
  (max_shift < 0 -> find_offset ref test max_shift = (0, 0)).
Proof.
  unfold find_offset, find_offset_run.
  destruct (fv_ltb _ _ || fv_ltb _ _).
  - cbn [fst snd]. split; [lia | reflexivity].
  - cbn [fst snd].
    pose proof (fold_offset_member (zscore (zero_nonfinite ref))
                  (zscore (zero_nonfinite test)) (scan_order max_shift)
                  ((Fin (f_of_Z (-999)), (0, 0)), [])) as Hmem.
    set (r := snd (fst (fold_left
                          (offset_step (zscore (zero_nonfinite ref))
                                       (zscore (zero_nonfinite test)))
                          (scan_order max_shift)
                          ((Fin (f_of_Z (-999)), (0, 0)), [])))) in *.
    destruct Hmem as [E|E].
    + rewrite E. cbn [fst snd]. split; [lia | reflexivity].
    + split.
      * intros _. destruct r as [dy dx].
        apply scan_order_In in E. cbn [fst snd]. lia.
      * intros Hm. rewrite (scan_order_negative Hm) in E. destruct E.
Qed.

End SearchWindow.

Lemma find_offset_in_window_witness :
  - 1 <= fst (find_offset (F := Qc)
                [[Fin (Qc_of_Z 1); Fin (Qc_of_Z 2)]]
                [[Fin (Qc_of_Z 2); Fin (Qc_of_Z 5)]] 1) <= 1 /\
  - 1 <= snd (find_offset (F := Qc)
                [[Fin (Qc_of_Z 1); Fin (Qc_of_Z 2)]]
                [[Fin (Qc_of_Z 2); Fin (Qc_of_Z 5)]] 1) <= 1.
Proof.
  apply (proj1 (find_offset_in_window (F := Qc) _ _ 1)). lia.
Defined.


(** ** Correlation and the thresholded metrics *)

Section CorrelationFacts.
Context {F : Type} `{FloatOrder F}.
Variable pearsonr_p : fval F -> nat -> fval F.

(** X3. [calculate_correlation] returns the pair [(NaN, NaN)] when fewer
    than three samples are finite in both arrays, and the coefficient it
    returns is otherwise NaN (a constant input) or a number between -1
    and 1. *)
Theorem calculate_correlation_range (data1 data2 : grid F) :
  ((count (joint_mask data1 data2) < 3)%nat ->
   calculate_correlation pearsonr_p data1 data2 = (NaN, NaN)) /\
  (fst (calculate_correlation pearsonr_p data1 data2) = NaN \/
   exists r, fst (calculate_correlation pearsonr_p data1 data2) = Fin r /\
             f_ltb r (f_of_Z (-1)) = false /\ f_ltb (f_of_Z 1) r = false).
Proof.
  unfold calculate_correlation.
  destruct (count (joint_mask data1 data2) <? 3)%nat eqn:E.
  - split; [reflexivity | left; reflexivity].
  - apply Nat.ltb_ge in E. split; [intros; lia|].
    cbn [pearsonr fst]. unfold pearsonr_r.
    destruct (is_constant _ || is_constant _); [left; reflexivity|].
    apply fv_clip_range.
Qed.
End CorrelationFacts.

Lemma calculate_correlation_range_witness :
  calculate_correlation (F := Qc) (fun _ _ => NaN)
    [[Fin (Qc_of_Z 1); NaN; Fin (Qc_of_Z 4)]]
    [[Fin (Qc_of_Z 2); Fin (Qc_of_Z 3); Fin (Qc_of_Z 9)]]
  = (NaN, NaN).
Proof.
  apply (proj1 (@calculate_correlation_range Qc Qc_ops Qc_float_order
                  (fun _ _ => NaN) _ _)).
  vm_compute. lia.
Defined.

Section ThresholdFacts.
Context {F : Type} `{FloatOps F}.
Variable pearsonr_p : fval F -> nat -> fval F.

(** X4. The metrics of [_analyze_extended.py] are those of [_analyze.py]
    behind a stricter gate: with at least ten joint samples [calc_rmse]
    equals [calculate_rmse] and [calc_r2] is the square of the
    coefficient of [calculate_correlation]; with one to nine joint
    samples the former are NaN although [calculate_rmse] is a number. *)
Theorem extended_metrics_gate (test ref : grid F) :
  calc_rmse test ref
  = (if (count (joint_mask test ref) <? 10)%nat then NaN
     else calculate_rmse test ref) /\
  calc_r2 test ref
  = (if (count (joint_mask test ref) <? 10)%nat then NaN
     else fv_mul (fst (calculate_correlation pearsonr_p test ref))
                 (fst (calculate_correlation pearsonr_p test ref))) /\
  ((0 < count (joint_mask test ref))%nat ->
   exists x, calculate_rmse test ref = Fin x).
Proof.
  unfold calc_rmse, calc_r2, calculate_rmse, calculate_correlation.
  destruct (count (joint_mask test ref) <? 10)%nat eqn:E10.
  - split; [reflexivity|]. split; [reflexivity|].
    intros Hpos. destruct (count (joint_mask test ref) =? 0)%nat eqn:E0;
      [apply Nat.eqb_eq in E0; lia|].
    rewrite np_mean_nonempty; [eauto|].
    intros Hnil. apply (f_equal (@length F)) in Hnil.
    rewrite length_map, joint_diff_length in Hnil. simpl in Hnil. lia.
  - apply Nat.ltb_ge in E10.
    destruct (count (joint_mask test ref) =? 0)%nat eqn:E0;
      [apply Nat.eqb_eq in E0; lia|].
    destruct (count (joint_mask test ref) <? 3)%nat eqn:E3;
      [apply Nat.ltb_lt in E3; lia|].
    split; [reflexivity|]. split; [reflexivity|].
    intros _. rewrite np_mean_nonempty; [eauto|].
    intros Hnil. apply (f_equal (@length F)) in Hnil.
    rewrite length_map, joint_diff_length in Hnil. simpl in Hnil. lia.
Qed.
End ThresholdFacts.

Lemma extended_metrics_gate_witness :
  exists x,
    calculate_rmse (F := Qc)
      [[Fin (Qc_of_Z 1); NaN; Fin (Qc_of_Z 4)]]
      [[Fin (Qc_of_Z 2); Fin (Qc_of_Z 3); Fin (Qc_of_Z 9)]] = Fin x.
Proof.
  apply (proj2 (proj2 (extended_metrics_gate (F := Qc) (fun _ _ => NaN) _ _))).
  vm_compute. lia.
Defined.

(** ** File discovery *)

Section PathFacts.
Context {F : Type}.
Variable affine : Type.
Variable BASE_DIR : string.
Variable fs : filesystem (F := F) affine.
Variables date_str aoi_key : string.
Variable p : pol.

Lemma cropped_path_is_config_path (dem_type : string) :
  path_join
    (path_join (path_join (if String.eqb dem_type "kartverket"
                           then MULTITEMP_PYROSAR_KART_DIR BASE_DIR
                           else MULTITEMP_PYROSAR_COP_DIR BASE_DIR)
                          date_str) aoi_key)
    (aoi_key +:+ "_V" +:+ pol_upper_1 p +:+ "_gamma0-rtc_cropped.tif")
  = get_pyrosar_path BASE_DIR date_str aoi_key p dem_type.
Proof. unfold get_pyrosar_path. destruct p; reflexivity. Qed.

(** X5. The file discovery of [_data_utils.py] extends that of
    [_config.py]: whenever the cropped file named by
    [get_pyrosar_path] exists it is the file returned (the first two
    candidate names coincide for both polarisations), so a file found by
    the [_config] version is found by the [_data_utils] version too; and
    the result is absent exactly when that file is missing and both
    glob patterns match nothing. *)
Theorem find_pyrosar_file_priority (dem_type : string) :
  (path_exists fs (get_pyrosar_path BASE_DIR date_str aoi_key p dem_type)
   = true ->
   find_pyrosar_file BASE_DIR fs date_str aoi_key p dem_type
   = Some (get_pyrosar_path BASE_DIR date_str aoi_key p dem_type)) /\
  (forall path,
      config_find_pyrosar_file BASE_DIR fs date_str aoi_key p dem_type
      = Some path ->
      find_pyrosar_file BASE_DIR fs date_str aoi_key p dem_type = Some path) /\
  (find_pyrosar_file BASE_DIR fs date_str aoi_key p dem_type = None <->
   path_exists fs (get_pyrosar_path BASE_DIR date_str aoi_key p dem_type)
   = false /\
   fs_glob fs
     (path_join (path_join (if String.eqb dem_type "kartverket"
                            then MULTITEMP_PYROSAR_KART_DIR BASE_DIR
                            else MULTITEMP_PYROSAR_COP_DIR BASE_DIR)
                           date_str) aoi_key)
     ("*" +:+ pol_upper p +:+ "*cropped*.tif") = [] /\
   fs_glob fs
     (path_join (path_join (if String.eqb dem_type "kartverket"
                            then MULTITEMP_PYROSAR_KART_DIR BASE_DIR
                            else MULTITEMP_PYROSAR_COP_DIR BASE_DIR)
                           date_str) aoi_key)
     ("*_" +:+ pol_upper p +:+ "_gamma0-rtc.tif") = []).
Proof.
  assert (Hfirst :
    path_exists fs (get_pyrosar_path BASE_DIR date_str aoi_key p dem_type)
    = true ->
    find_pyrosar_file BASE_DIR fs date_str aoi_key p dem_type
    = Some (get_pyrosar_path BASE_DIR date_str aoi_key p dem_type)).
  { intros Hex. unfold find_pyrosar_file.
    rewrite cropped_path_is_config_path, Hex. reflexivity. }
  split; [exact Hfirst|]. split.
  - unfold config_find_pyrosar_file. intros path.
    destruct (path_exists fs _) eqn:Hex; [|discriminate].
    intros E. inversion E; subst. apply Hfirst. reflexivity.
  - unfold find_pyrosar_file. rewrite cropped_path_is_config_path.
    destruct (path_exists fs (get_pyrosar_path _ _ _ _ _)) eqn:Hex.
    + split; [discriminate | intros [Hc _]; discriminate].
    + replace (path_join _ (aoi_key +:+ "_" +:+ pol_upper p
                                    +:+ "_gamma0-rtc_cropped.tif"))
        with (get_pyrosar_path BASE_DIR date_str aoi_key p dem_type)
        by reflexivity.
      rewrite Hex.
      destruct (fs_glob fs _ ("*" +:+ pol_upper p +:+ "*cropped*.tif"))
        as [|m1 l1].
      * destruct (fs_glob fs _ ("*_" +:+ pol_upper p +:+ "_gamma0-rtc.tif"))
          as [|m2 l2].
        -- split; auto.
        -- split; [discriminate | intros [_ [_ Hc]]; discriminate].
      * split; [discriminate | intros [_ [Hc _]]; discriminate].
Qed.

(** X6. [get_lia_path] flags an incidence-angle raster as stored in
    radians exactly for the methods [hyp3_gamma] and [gee_standard], and
    in both cases the raster is the HyP3 incidence file of the unit; an
    unknown method has no raster and no flag. *)
Theorem get_lia_path_radians (method : string) :
  (snd (get_lia_path BASE_DIR date_str aoi_key method) = true <->
   method = "hyp3_gamma" \/ method = "gee_standard") /\
  (snd (get_lia_path BASE_DIR date_str aoi_key method) = true ->
   fst (get_lia_path BASE_DIR date_str aoi_key method)
   = Some (path_join (path_join (MULTITEMP_HYP3_DIR BASE_DIR) date_str)
                     (aoi_key +:+ "_hyp3_inc.tif"))) /\
  (fst (get_lia_path BASE_DIR date_str aoi_key method) = None <->
   ~ In method load_order).
Proof.
  unfold get_lia_path, load_order.
  destruct (String.eqb_spec method "hyp3_gamma") as [->|N1].
  { cbn [fst snd]. split; [split; auto|]. split; [auto|].
    split; [discriminate|]. intros Hn. exfalso. apply Hn. simpl. auto. }
  destruct (String.eqb_spec method "pyrosar_kartverket") as [->|N2].
  { cbn [fst snd]. split; [split; [discriminate|intros [E|E]; discriminate]|].
    split; [discriminate|].
    split; [discriminate|]. intros Hn. exfalso. apply Hn. simpl. auto 10. }
  destruct (String.eqb_spec method "pyrosar_copernicus") as [->|N3].
  { cbn [fst snd]. split; [split; [discriminate|intros [E|E]; discriminate]|].
    split; [discriminate|].
    split; [discriminate|]. intros Hn. exfalso. apply Hn. simpl. auto 10. }
  destruct (String.eqb_spec method "gee_s1ard_kartverket") as [->|N4].
  { cbn [fst snd]. split; [split; [discriminate|intros [E|E]; discriminate]|].
    split; [discriminate|].
    split; [discriminate|]. intros Hn. exfalso. apply Hn. simpl. auto 10. }
  destruct (String.eqb_spec method "gee_s1ard_copernicus") as [->|N5].
  { cbn [fst snd]. split; [split; [discriminate|intros [E|E]; discriminate]|].
    split; [discriminate|].
    split; [discriminate|]. intros Hn. exfalso. apply Hn. simpl. auto 10. }
  destruct (String.eqb_spec method "gee_standard") as [->|N6].
  { cbn [fst snd]. split; [split; auto|]. split; [auto|].
    split; [discriminate|]. intros Hn. exfalso. apply Hn. simpl. auto 10. }
  cbn [fst snd]. split; [split; [discriminate|intros [E|E]; congruence]|].
  split; [discriminate|]. split; [|reflexivity].
  intros _ Hin. simpl in Hin.
  destruct Hin as [E|[E|[E|[E|[E|[E|[]]]]]]]; congruence.
Qed.

(** X7. The three modules name the same backscatter files: for HyP3 and
    the GEE methods, [_analyze_lia.get_bs_path] gives the path of
    [_config.get_hyp3_path] / [get_gee_path], which is also the path
    [load_all_methods] reads; for a PyroSAR method it gives the first
    match of the cropped-file pattern, which is what
    [find_pyrosar_file] returns when the canonical cropped file is
    missing and the pattern matches. *)
Theorem backscatter_paths_agree :
  get_bs_path BASE_DIR fs date_str aoi_key "hyp3_gamma" p
  = Some (get_hyp3_path BASE_DIR date_str aoi_key p) /\
  (forall m, In m (gee_methods aoi_key p) ->
             get_bs_path BASE_DIR fs date_str aoi_key (fst m) p
             = Some (get_gee_path BASE_DIR date_str aoi_key (fst m) p) /\
             path_join (path_join (MULTITEMP_GEE_DIR BASE_DIR) date_str) (snd m)
             = get_gee_path BASE_DIR date_str aoi_key (fst m) p) /\
  (forall m, In m pyrosar_methods ->
             path_exists fs (get_pyrosar_path BASE_DIR date_str aoi_key p (fst m))
             = false ->
             get_bs_path BASE_DIR fs date_str aoi_key (snd m) p <> None ->
             find_pyrosar_file BASE_DIR fs date_str aoi_key p (fst m)
             = get_bs_path BASE_DIR fs date_str aoi_key (snd m) p).
Proof.
  split; [reflexivity|]. split.
  - intros m Hm. simpl in Hm.
    destruct Hm as [<-|[<-|[<-|[]]]]; split; reflexivity.
  - intros m Hm Hex Hbs. unfold find_pyrosar_file.
    rewrite cropped_path_is_config_path, Hex.
    replace (path_join _ (aoi_key +:+ "_" +:+ pol_upper p
                                  +:+ "_gamma0-rtc_cropped.tif"))
      with (get_pyrosar_path BASE_DIR date_str aoi_key p (fst m))
      by reflexivity.
    rewrite Hex. simpl in Hm.
    destruct Hm as [<-|[<-|[]]]; cbn [fst snd String.eqb] in *;
      unfold get_bs_path in *; cbn [String.eqb Ascii.eqb Bool.eqb] in *;
      destruct (fs_glob fs _ _); congruence.
Qed.
End PathFacts.

Lemma find_pyrosar_file_priority_witness :
  find_pyrosar_file "." example_fs "20170613" "jorde" VV "kartverket"
  = Some (get_pyrosar_path "." "20170613" "jorde" VV "kartverket").
Proof.
  apply (proj1 (find_pyrosar_file_priority "." example_fs "20170613" "jorde"
                  VV "kartverket")).
  reflexivity.
Defined.

Lemma get_lia_path_radians_witness :
  fst (get_lia_path "." "20170613" "jorde" "gee_standard")
  = Some (path_join (path_join (MULTITEMP_HYP3_DIR ".") "20170613")
                    ("jorde" +:+ "_hyp3_inc.tif")).
Proof.
  apply (proj1 (proj2 (get_lia_path_radians "." "20170613" "jorde"
                         "gee_standard"))).
  reflexivity.
Defined.

Lemma backscatter_paths_agree_witness :
  get_bs_path "." example_fs "20170613" "jorde" "gee_standard" VH
  = Some (get_gee_path "." "20170613" "jorde" "gee_standard" VH) /\
  find_pyrosar_file "."
    ({| fs_open := fun _ => None; fs_glob := fun _ _ => ["found.tif"] |}
     : filesystem (F := Qc) unit)
    "20170613" "jorde" VV "kartverket"
  = get_bs_path "."
      ({| fs_open := fun _ => None; fs_glob := fun _ _ => ["found.tif"] |}
       : filesystem (F := Qc) unit)
      "20170613" "jorde" "pyrosar_kartverket" VV.
Proof.
  split.
  - apply (proj1 (proj2 (backscatter_paths_agree "." example_fs "20170613"
                           "jorde" VH))
             ("gee_standard", "jorde" +:+ "_standard_" +:+ "vh" +:+ ".tif")).
    simpl. auto.
  - apply (proj2 (proj2 (backscatter_paths_agree "."
                           ({| fs_open := fun _ => None;
                               fs_glob := fun _ _ => ["found.tif"] |}
                            : filesystem (F := Qc) unit)
                           "20170613" "jorde" VV))
             ("kartverket", "pyrosar_kartverket")).
    + simpl. auto.
    + reflexivity.
    + intros E. vm_compute in E. discriminate.
Defined.

(** ** The decibel grid *)

Section DecibelFacts.
Context {F : Type} `{FloatOps F}.
Variable affine : Type.
Variable astype_float32 : fval F -> fval F.
Variable log10 : F -> F.

Lemma to_db_masked (v : fval F) :
  to_db log10 (mask_invalid v) <> NInf /\
  isfinite (to_db log10 (mask_invalid v)) = isfinite (mask_invalid v).
Proof.
  destruct (mask_invalid_cases v) as [E|[E Hle]]; rewrite E.
  - split; [discriminate | reflexivity].
  - destruct v as [x| | |]; simpl in *; try discriminate;
      try (split; [discriminate | reflexivity]).
    unfold f_leb in Hle. apply orb_false_iff in Hle. destruct Hle as [Hlt Heq].
    rewrite Heq, Hlt. split; [discriminate | reflexivity].
Qed.

(** X8. A grid that [load_raster] returns in decibels never holds minus
    infinity (zeros were masked before the logarithm), and it has finite
    cells exactly where the linear grid of the same file has them, so
    both domains offer the same valid samples. *)
Theorem load_raster_db_cells (fs : filesystem affine) (path : string)
        (lin db : grid F) (tr tr' : option affine) :
  load_raster astype_float32 log10 fs (Some path) false = (Some lin, tr) ->
  load_raster astype_float32 log10 fs (Some path) true = (Some db, tr') ->
  (forall v, In v (flatten db) -> v <> NInf) /\
  map isfinite (flatten db) = map isfinite (flatten lin) /\
  shape db = shape lin /\
  tr = tr'.
Proof.
  unfold load_raster. destruct (fs_open fs path) as [src|]; [|discriminate].
  intros Elin Edb. inversion Elin; subst. inversion Edb; subst.
  unfold flatten. rewrite <- !concat_map, !map_map.
  repeat split.
  - intros v Hv. apply in_map_iff in Hv. destruct Hv as [w [<- _]].
    apply to_db_masked.
  - apply map_ext. intros w. apply to_db_masked.
  - unfold shape. rewrite !length_map.
    destruct (band src) as [|row rest]; simpl; rewrite ?length_map;
      reflexivity.
Qed.
End DecibelFacts.

Lemma load_raster_db_cells_witness :
  map isfinite
      (flatten [[Fin (Qc_of_Z 10 * Qc_of_Z 1)%Qc; Fin (Qc_of_Z 10 * Qc_of_Z 2)%Qc];
                [Fin (Qc_of_Z 10 * Qc_of_Z 3)%Qc; Fin (Qc_of_Z 10 * Qc_of_Z 4)%Qc]])
  = map isfinite
        (flatten [[Fin (Qc_of_Z 1); Fin (Qc_of_Z 2)];
                  [Fin (Qc_of_Z 3); Fin (Qc_of_Z 4)]]).
Proof.
  apply (proj1 (proj2 (@load_raster_db_cells Qc Qc_ops unit (fun v => v)
           (fun x => x) example_fs
           "./data/multitemporal/hyp3/20170613/jorde_hyp3_vv.tif"
           _ _ (Some tt) (Some tt) eq_refl eq_refl))).
Defined.

(** ** Sampling a raster at points *)

Section PointFacts.
Context {F : Type} `{FloatOps F}.
Variables affine coord : Type.
Variable rowcol : affine -> coord -> coord -> Z * Z.

(** X9. [extract_at_points] returns one value per coordinate pair; each
    is NaN or a cell of the raster, and a point whose row or column falls
    outside the frame gives NaN, never a cell reached by a negative
    index. *)
Theorem extract_at_points_bounds (raster : grid F) (tr : affine)
        (x_coords y_coords : list coord) :
  length (extract_at_points rowcol raster tr x_coords y_coords)
  = Nat.min (length x_coords) (length y_coords) /\
  (forall v, In v (extract_at_points rowcol raster tr x_coords y_coords) ->
             v = NaN \/ In v (flatten raster)) /\
  (forall x y,
      (fst (rowcol tr x y) < 0 \/
       Z.of_nat (fst (shape raster)) <= fst (rowcol tr x y) \/
       snd (rowcol tr x y) < 0 \/
       Z.of_nat (snd (shape raster)) <= snd (rowcol tr x y)) ->
      extract_at_points rowcol raster tr [x] [y] = [NaN]).
Proof.
  unfold extract_at_points. split; [|split].
  - rewrite length_map. apply length_combine.
  - intros v Hv. apply in_map_iff in Hv. destruct Hv as [[x y] [Hv _]].
    cbn [fst snd] in Hv.
    destruct (_ && _ && _ && _) eqn:E; [|left; auto].
    apply andb_true_iff in E. destruct E as [E E4].
    apply andb_true_iff in E. destruct E as [E E3].
    apply andb_true_iff in E. destruct E as [E1 E2].
    apply Z.leb_le in E1, E3. apply Z.ltb_lt in E2, E4.
    set (i := Z.to_nat (fst (rowcol tr x y))) in *.
    set (j := Z.to_nat (snd (rowcol tr x y))) in *.
    assert (Hi : (i < length raster)%nat) by (unfold shape in E2; simpl in E2; lia).
    destruct (Nat.lt_ge_cases j (length (nth i raster []))) as [Hj|Hj].
    + right. subst v. unfold flatten. apply in_concat.
      exists (nth i raster []). split; [apply nth_In, Hi | apply nth_In, Hj].
    + left. subst v. apply nth_overflow, Hj.
  - intros x y Hout. cbn [combine map fst snd].
    replace (_ && _ && _ && _) with false; [reflexivity|].
    symmetry. destruct Hout as [Ho|[Ho|[Ho|Ho]]].
    + apply Z.leb_gt in Ho. rewrite Ho. reflexivity.
    + apply Z.ltb_ge in Ho. rewrite Ho. rewrite andb_false_r. reflexivity.
    + apply Z.leb_gt in Ho. rewrite Ho. rewrite andb_false_r. reflexivity.
    + apply Z.ltb_ge in Ho. rewrite Ho. rewrite andb_false_r. reflexivity.
Qed.
End PointFacts.

Lemma extract_at_points_bounds_witness :
  extract_at_points (F := Qc) (fun (_ : unit) (x y : Z) => (y, x))
    [[Fin (Qc_of_Z 1); Fin (Qc_of_Z 2)]] tt [5] [0]
  = [NaN].
Proof.
  apply (proj2 (proj2 (extract_at_points_bounds (F := Qc)
                         (fun (_ : unit) (x y : Z) => (y, x))
                         [[Fin (Qc_of_Z 1); Fin (Qc_of_Z 2)]] tt [] []))).
  right. right. right. simpl. lia.
Defined.

(** ** What [load_all_methods] returns *)

Section LoadedFacts.
Context {F : Type} `{FloatOps F}.
Variable affine : Type.
Variable astype_float32 : fval F -> fval F.
Variable log10 : F -> F.
Variable BASE_DIR : string.
Variable zoom_value : grid F -> Qc * Qc -> nat -> nat -> fval F.
Variable pearsonr_p : fval F -> nat -> fval F.
Variable fs : filesystem (F := F) affine.
Variables date_str aoi_key : string.
Variable p : pol.
Variable as_db : bool.

Lemma keys_dict_set (k : string) (v : grid F) (d : list (string * grid F)) :
  map fst (dict_set k v d) = add_key k (map fst d).
Proof.
  unfold add_key. induction d as [|[k' v'] d IH]; simpl; [reflexivity|].
  destruct (String.eqb k k') eqn:E; simpl.
  - apply String.eqb_eq in E. subst. reflexivity.
  - rewrite IH. destruct (existsb (String.eqb k) (map fst d)); reflexivity.
Qed.

Lemma load_gee_keys (st : load_state (F := F) affine) (m : string * string) :
  keys_of (load_gee astype_float32 log10 BASE_DIR fs date_str as_db st m)
  = keys_of st \/
  keys_of (load_gee astype_float32 log10 BASE_DIR fs date_str as_db st m)
  = add_key (fst m) (keys_of st).
Proof.
  unfold load_gee, keys_of. destruct (path_exists fs _); [|left; reflexivity].
  destruct (load_raster _ _ _ _ _) as [[data|] tr]; [|left; reflexivity].
  right. apply keys_dict_set.
Qed.

Lemma load_pyrosar_keys (st : load_state (F := F) affine)
      (m : string * string) :
  keys_of (load_pyrosar astype_float32 log10 BASE_DIR zoom_value fs date_str
                        aoi_key p as_db st m)
  = keys_of st \/
  keys_of (load_pyrosar astype_float32 log10 BASE_DIR zoom_value fs date_str
                        aoi_key p as_db st m)
  = add_key (snd m) (keys_of st).
Proof.
  unfold load_pyrosar, keys_of.
  destruct (find_pyrosar_file _ _ _ _ _ _); [|left; reflexivity].
  destruct (path_exists fs _); [|left; reflexivity].
  destruct (load_raster _ _ _ _ _) as [[data|] tr]; [|left; reflexivity].
  right. apply keys_dict_set.
Qed.

Lemma load_hyp3_keys :
  keys_of (load_hyp3 astype_float32 log10 BASE_DIR fs date_str aoi_key p as_db
                     {| data_dict := []; ref_transform := None;
                        ref_shape := None |}) = [] \/
  keys_of (load_hyp3 astype_float32 log10 BASE_DIR fs date_str aoi_key p as_db
                     {| data_dict := []; ref_transform := None;
                        ref_shape := None |}) = ["hyp3_gamma"].
Proof.
  unfold load_hyp3, keys_of. destruct (path_exists fs _); [|left; reflexivity].
  destruct (load_raster _ _ _ _ _) as [[data|] tr]; [|left; reflexivity].
  right. reflexivity.
Qed.

(** X10. The dictionary of [load_all_methods] lists the loaded methods in
    the order the function visits them (HyP3, the three GEE methods, the
    two PyroSAR methods), each at most once and no other key;
    [analyze_single_date] returns nothing when it is empty and otherwise
    one row per entry, in that order. *)
Theorem load_all_methods_keys :
  sublist_of (map fst (fst (load_all_methods astype_float32 log10 BASE_DIR
                                             zoom_value fs date_str aoi_key
                                             p as_db)))
             load_order = true /\
  let dd := fst (load_all_methods astype_float32 log10 BASE_DIR zoom_value fs
                                  date_str aoi_key p true) in
  (dd = [] <->
   analyze_single_date astype_float32 log10 BASE_DIR zoom_value fs
                       date_str aoi_key p = None) /\
  (forall rows,
      analyze_single_date astype_float32 log10 BASE_DIR zoom_value fs
                          date_str aoi_key p = Some rows ->
      map (fun r => sr_method r) rows = map fst dd /\
      map (fun r => sr_stats r) rows
      = map (fun kv => calculate_stats (snd kv)) dd).
Proof.
  split; [|intros dd; split].
  - unfold load_all_methods. cbn [fst].
    change (map fst (data_dict ?s)) with (keys_of s).
    unfold load_all_state, gee_methods, pyrosar_methods. cbn [fold_left].
    set (s0 := load_hyp3 _ _ _ _ _ _ _ _ _).
    set (s1 := load_gee _ _ _ _ _ _ s0 _).
    set (s2 := load_gee _ _ _ _ _ _ s1 _).
    set (s3 := load_gee _ _ _ _ _ _ s2 _).
    set (s4 := load_pyrosar _ _ _ _ _ _ _ _ _ s3 _).
    set (s5 := load_pyrosar _ _ _ _ _ _ _ _ _ s4 _).
    destruct (@load_pyrosar_keys s4 ("copernicus", "pyrosar_copernicus"))
      as [E5|E5]; fold s5 in E5; rewrite E5; clear E5;
    destruct (@load_pyrosar_keys s3 ("kartverket", "pyrosar_kartverket"))
      as [E4|E4]; fold s4 in E4; rewrite E4; clear E4;
    destruct (@load_gee_keys s2
                ("gee_standard",
                 aoi_key +:+ "_standard_" +:+ pol_str p +:+ ".tif"))
      as [E3|E3]; fold s3 in E3; rewrite E3; clear E3;
    destruct (@load_gee_keys s1
                ("gee_s1ard_copernicus",
                 aoi_key +:+ "_s1ard_copernicus_" +:+ pol_str p +:+ ".tif"))
      as [E2|E2]; fold s2 in E2; rewrite E2; clear E2;
    destruct (@load_gee_keys s0
                ("gee_s1ard_kartverket",
                 aoi_key +:+ "_s1ard_kartverket_" +:+ pol_str p +:+ ".tif"))
      as [E1|E1]; fold s1 in E1; rewrite E1; clear E1;
    destruct load_hyp3_keys as [E0|E0]; fold s0 in E0; rewrite E0;
    reflexivity.
  - unfold analyze_single_date. fold dd.
    destruct dd; split; congruence.
  - intros rows Hrows. unfold analyze_single_date in Hrows.
    fold dd in Hrows.
    assert (Hr : rows
                 = map (fun kv : string * grid F =>
                          {| sr_date := date_str;
                             sr_aoi := aoi_key;
                             sr_pol := pol_str p;
                             sr_method := fst kv;
                             sr_method_name := method_name (fst kv);
                             sr_stats := calculate_stats (snd kv) |}) dd).
    { destruct dd; [discriminate|]. injection Hrows as <-. reflexivity. }
    rewrite Hr, !map_map. split; reflexivity.
Qed.

Lemma load_gee_hyp3 (st : load_state (F := F) affine) (m : string * string) :
  fst m <> "hyp3_gamma" ->
  ref_transform (load_gee astype_float32 log10 BASE_DIR fs date_str as_db st m)
  = ref_transform st /\
  dict_get "hyp3_gamma"
           (data_dict (load_gee astype_float32 log10 BASE_DIR fs date_str
                                as_db st m))
  = dict_get "hyp3_gamma" (data_dict st).
Proof.
  intros Hne. unfold load_gee. destruct (path_exists fs _); [|auto].
  destruct (load_raster _ _ _ _ _) as [[data|] tr]; [|auto].
  cbn [ref_transform data_dict]. split; [reflexivity|].
  apply dict_get_set_ne. congruence.
Qed.

Lemma load_pyrosar_hyp3 (st : load_state (F := F) affine)
      (m : string * string) :
  snd m <> "hyp3_gamma" ->
  ref_transform (load_pyrosar astype_float32 log10 BASE_DIR zoom_value fs
                              date_str aoi_key p as_db st m)
  = ref_transform st /\
  dict_get "hyp3_gamma"
           (data_dict (load_pyrosar astype_float32 log10 BASE_DIR zoom_value
                                    fs date_str aoi_key p as_db st m))
  = dict_get "hyp3_gamma" (data_dict st).
Proof.
  intros Hne. unfold load_pyrosar.
  destruct (find_pyrosar_file _ _ _ _ _ _); [|auto].
  destruct (path_exists fs _); [|auto].
  destruct (load_raster _ _ _ _ _) as [[data|] tr]; [|auto].
  cbn [ref_transform data_dict]. split; [reflexivity|].
  apply dict_get_set_ne. congruence.
Qed.

(** X11. The transform [load_all_methods] returns is that of the HyP3
    raster and nothing else: it is absent exactly when the HyP3 file is,
    whatever GEE and PyroSAR files were loaded; likewise the entry
    [hyp3_gamma] is present exactly when the HyP3 file exists. *)
Theorem load_all_methods_transform :
  let r := load_all_methods astype_float32 log10 BASE_DIR zoom_value fs
                            date_str aoi_key p as_db in
  snd r = match fs_open fs (get_hyp3_path BASE_DIR date_str aoi_key p) with
          | Some src => Some (transform src)
          | None => None
          end /\
  (dict_get "hyp3_gamma" (fst r) = None <->
   fs_open fs (get_hyp3_path BASE_DIR date_str aoi_key p) = None).
Proof.
  unfold load_all_methods. cbn [fst snd].
  unfold load_all_state, gee_methods, pyrosar_methods. cbn [fold_left].
  set (s0 := load_hyp3 _ _ _ _ _ _ _ _ _).
  repeat match goal with
  | |- context [load_pyrosar ?a ?b ?c ?d ?e ?f ?g ?h ?i ?st ?m] =>
      let Hp := fresh "Hp" in
      destruct (@load_pyrosar_hyp3 st m ltac:(discriminate)) as [-> Hp];
      rewrite Hp; clear Hp
  | |- context [load_gee ?a ?b ?c ?e ?f ?g ?st ?m] =>
      let Hg := fresh "Hg" in
      destruct (@load_gee_hyp3 st m ltac:(discriminate)) as [-> Hg];
      rewrite Hg; clear Hg
  end.
  unfold s0, load_hyp3, path_exists, load_raster.
  change (path_join (path_join (MULTITEMP_HYP3_DIR BASE_DIR) date_str)
                    (aoi_key +:+ "_hyp3_" +:+ pol_str p +:+ ".tif"))
    with (get_hyp3_path BASE_DIR date_str aoi_key p).
  destruct (fs_open fs (get_hyp3_path BASE_DIR date_str aoi_key p)) as [src|].
  - cbn [ref_transform data_dict dict_set dict_get String.eqb].
    split; [reflexivity|]. split; discriminate.
  - cbn [ref_transform data_dict dict_get]. split; [reflexivity|].
    split; reflexivity.
Qed.
End LoadedFacts.

Lemma load_all_methods_keys_witness :
  match analyze_single_date (fun v => v) (fun x => x) "."
                            (fun _ _ _ _ => NaN) example_fs
                            "20170613" "jorde" VV with
  | Some rows =>
      map (fun r => sr_method r) rows
      = map fst (fst (load_all_methods (fun v => v) (fun x => x) "."
                                       (fun _ _ _ _ => NaN) example_fs
                                       "20170613" "jorde" VV true))
  | None => False
  end.
Proof.
  destruct (analyze_single_date (fun v => v) (fun x => x) "."
                                (fun _ _ _ _ => NaN) example_fs
                                "20170613" "jorde" VV) as [rows|] eqn:E.
  - apply (proj2 (proj2 (@load_all_methods_keys Qc Qc_ops unit (fun v => v)
                           (fun x => x) "." (fun _ _ _ _ => NaN) example_fs
                           "20170613" "jorde" VV true)) rows E).
  - vm_compute in E. discriminate.
Defined.

Lemma load_all_methods_transform_witness :
  dict_get "hyp3_gamma"
           (fst (load_all_methods (fun v => v) (fun x => x) "."
                                  (fun _ _ _ _ => NaN) example_fs
                                  "20170101" "jorde" VV true)) = None.
Proof.
  apply (proj2 (@load_all_methods_transform Qc Qc_ops unit (fun v => v)
                  (fun x => x) "." (fun _ _ _ _ => NaN) example_fs
                  "20170101" "jorde" VV true)).
  reflexivity.
Defined.

(** ** The rows of [analyze_inter_product] *)

Section InterProductFacts.
Context {F : Type} `{FloatOps F}.
Variable affine : Type.
Variable astype_float32 : fval F -> fval F.
Variable log10 : F -> F.
Variable BASE_DIR : string.
Variable zoom_value : grid F -> Qc * Qc -> nat -> nat -> fval F.
Variable pearsonr_p : fval F -> nat -> fval F.
Variable fs : filesystem (F := F) affine.
Variables date_str aoi_key ref_method : string.
Variable p : pol.

Lemma comparison_rows_fields (ref_data : grid F)
      (dd : list (string * grid F)) (row : comparison_row) :
  In row (comparison_rows pearsonr_p date_str aoi_key p ref_method ref_data dd) ->
  cr_ref row = ref_method /\
  cr_method row <> ref_method /\
  exists g, In (cr_method row, g) dd /\
            shape g = shape ref_data /\
            cr_rmse row = calculate_rmse g ref_data /\
            cr_bias row = calculate_bias g ref_data /\
            (cr_r row, cr_p row)
            = calculate_correlation pearsonr_p g ref_data.
Proof.
  unfold comparison_rows. intros Hrow. apply in_flat_map in Hrow.
  destruct Hrow as [[k g] [Hkv Hrow]]. cbn [fst snd] in Hrow.
  destruct (String.eqb k ref_method) eqn:Ek; [destruct Hrow|].
  destruct (shape_eqb (shape g) (shape ref_data)) eqn:Es;
    cbn [negb] in Hrow; [|destruct Hrow].
  destruct Hrow as [<-|[]]. cbn [cr_ref cr_method cr_rmse cr_bias cr_r cr_p].
  split; [reflexivity|]. split; [apply String.eqb_neq, Ek|].
  exists g. split; [exact Hkv|]. split; [apply shape_eqb_eq, Es|].
  split; [reflexivity|]. split; [reflexivity|].
  destruct (calculate_correlation pearsonr_p g ref_data); reflexivity.
Qed.

(** X12. [analyze_inter_product] returns nothing when the reference
    method was not loaded; a table it returns is never empty, and every
    row compares a loaded method other than the reference, of the same
    shape as the reference grid, with that grid: its rmse, bias and
    correlation are those of the pair (method grid, reference grid) in
    this order. *)
Theorem analyze_inter_product_rows :
  let dd := fst (load_all_methods astype_float32 log10 BASE_DIR zoom_value fs
                                  date_str aoi_key p true) in
  (dict_get ref_method dd = None ->
   analyze_inter_product astype_float32 log10 BASE_DIR zoom_value pearsonr_p
                         fs date_str aoi_key p ref_method = None) /\
  (forall rows,
      analyze_inter_product astype_float32 log10 BASE_DIR zoom_value
                            pearsonr_p fs date_str aoi_key p ref_method
      = Some rows ->
      rows <> [] /\
      exists ref_data,
        dict_get ref_method dd = Some ref_data /\
        forall row, In row rows ->
          cr_ref row = ref_method /\
          cr_method row <> ref_method /\
          exists g, In (cr_method row, g) dd /\
                    shape g = shape ref_data /\
                    cr_rmse row = calculate_rmse g ref_data /\
                    cr_bias row = calculate_bias g ref_data /\
                    (cr_r row, cr_p row)
                    = calculate_correlation pearsonr_p g ref_data).
Proof.
  intros dd. unfold analyze_inter_product. fold dd. split.
  - intros Href. rewrite Href. destruct dd; reflexivity.
  - intros rows Hrows.
    destruct (dict_get ref_method dd) as [ref_data|] eqn:Eref;
      [|destruct dd; discriminate].
    assert (Hr : comparison_rows pearsonr_p date_str aoi_key p ref_method
                                 ref_data dd = rows /\ rows <> []).
    { destruct dd; [discriminate|].
      destruct (comparison_rows _ _ _ _ _ _ _) as [|r0 rs]; [discriminate|].
      injection Hrows as <-. split; [reflexivity | discriminate]. }
    destruct Hr as [Hr Hne]. split; [exact Hne|].
    exists ref_data. split; [reflexivity|].
    intros row Hrow. rewrite <- Hr in Hrow.
    apply (comparison_rows_fields _ _ _ Hrow).
Qed.
End InterProductFacts.

Lemma analyze_inter_product_rows_witness :
  analyze_inter_product (fun v => v) (fun x => x) "." (fun _ _ _ _ => NaN)
                        (fun _ _ => NaN) example_fs "20170613" "jorde" VV
                        "gee_s1ard_copernicus" = None.
Proof.
  apply (proj1 (@analyze_inter_product_rows Qc Qc_ops unit (fun v => v)
                  (fun x => x) "." (fun _ _ _ _ => NaN) (fun _ _ => NaN)
                  example_fs "20170613" "jorde" "gee_s1ard_copernicus" VV)).
  reflexivity.
Defined.

(** ** The dictionary of [calc_slope] *)

Section SlopeDictFacts.
Context {F : Type} `{FloatOps F}.

Lemma calc_slope_kept (bs lia : grid F) :
  let kept :=
    List.filter spec_keep_sample (combine (flatten bs) (flatten lia)) in
  let x := map (fun s : fval F * fval F => fin_val (snd s)) kept in
  let y := map (fun s : fval F * fval F => fin_val (fst s)) kept in
  calc_slope (Some bs) (Some lia)
  = if (length kept <? 20)%nat then
      Some (<["slope" := VFloat NaN]>
            (<["r2" := VFloat NaN]>
             (<["n" := VInt (Z.of_nat (length kept))]> ∅)))
    else
      match linregress x y with
      | Some (slope, intercept, r) =>
          Some (<["slope" := VFloat (Fin slope)]>
                (<["intercept" := VFloat (Fin intercept)]>
                 (<["r2" := VFloat (Fin (f_mul r r))]>
                  (<["n" := VInt (Z.of_nat (length kept))]>
                   (<["_lia" := VArray x]>
                    (<["_bs" := VArray y]> ∅))))))
      | None => None
      end.
Proof.
  intros kept x y. unfold calc_slope.
  rewrite slope_mask_spec, count_map_filter, select_map_fst, select_map_snd.
  fold kept. rewrite !map_map. reflexivity.
Qed.

End SlopeDictFacts.


(** ** Exact arithmetic: the metrics on special inputs *)

Section ExactMetrics.
Local Open Scope R_scope.

Lemma Rsum_zeros (l : list R) : (forall v, In v l -> v = 0) -> Rsum l = 0.
Proof.
  induction l as [|x l IH]; intros Hl; [reflexivity|].
  change (Rsum (x :: l)) with (x + Rsum l).
  rewrite IH by (intros v Hv; apply Hl; right; exact Hv).
  rewrite (Hl x (or_introl eq_refl)). lra.
Qed.

Lemma R_mean_zeros (l : list R) :
  (forall v, In v l -> v = 0) -> f_mean l = 0.
Proof.
  intros Hl. unfold f_mean. cbn [f_div R_ops].
  rewrite R_f_sum, (Rsum_zeros l Hl). unfold Rdiv. ring.
Qed.

Lemma sub_arrays_self (x : list R) (v : R) :
  In v (sub_arrays x x) -> v = 0.
Proof.
  unfold sub_arrays. intros Hv. apply in_map_iff in Hv.
  destruct Hv as [[a b] [<- Hab]]. cbn [fst snd f_sub R_ops].
  assert (a = b); [|subst; lra].
  clear -Hab. induction x as [|c x IH]; [destruct Hab|].
  destruct Hab as [E|Hin]; [inversion E; reflexivity | auto].
Qed.

(** X14. In exact arithmetic a grid compared with itself has rmse 0 and
    bias 0 as soon as it has a finite cell, and both are NaN when it has
    none. *)
Theorem rmse_bias_self (a : grid R) :
  ((count (map isfinite (flatten a)) = 0)%nat ->
   calculate_rmse a a = NaN /\ calculate_bias a a = NaN) /\
  ((0 < count (map isfinite (flatten a)))%nat ->
   calculate_rmse a a = Fin 0 /\ calculate_bias a a = Fin 0).
Proof.
  unfold calculate_rmse, calculate_bias, joint_mask.
  rewrite mask_and_self.
  set (mask := map isfinite (flatten a)). set (x := masked a mask).
  assert (Hlen : length (sub_arrays x x) = count mask).
  { rewrite sub_arrays_length. unfold x, masked. rewrite length_map.
    rewrite select_length by (unfold mask; rewrite length_map; lia). lia. }
  split.
  - intros E0. rewrite E0. split; reflexivity.
  - intros Hpos. destruct (count mask =? 0)%nat eqn:E0;
      [apply Nat.eqb_eq in E0; lia|].
    assert (Hne : sub_arrays x x <> []).
    { intros Hnil. rewrite Hnil in Hlen. simpl in Hlen. lia. }
    split.
    + rewrite np_mean_nonempty
        by (intros Hnil; apply map_eq_nil in Hnil; contradiction).
      rewrite R_mean_zeros.
      * cbn [f_sqrt R_ops]. rewrite sqrt_0. reflexivity.
      * intros v Hv. apply in_map_iff in Hv. destruct Hv as [w [<- Hw]].
        rewrite (sub_arrays_self _ _ Hw). unfold f_sq.
        cbn [f_mul R_ops]. lra.
    + rewrite np_mean_nonempty by exact Hne.
      rewrite R_mean_zeros; [reflexivity|].
      intros v Hv. apply (sub_arrays_self _ _ Hv).
Qed.

(** X15. In exact arithmetic [calculate_rmse] is NaN or a number that is
    not negative, for every pair of grids. *)
Theorem rmse_nonnegative (a b : grid R) :
  calculate_rmse a b = NaN \/
  exists x, calculate_rmse a b = Fin x /\ 0 <= x.
Proof.
  unfold calculate_rmse.
  destruct (count (joint_mask a b) =? 0)%nat; [left; reflexivity|].
  destruct (np_mean _) as [m| | |] eqn:E; try (left; reflexivity).
  - right. exists (sqrt m). split; [reflexivity | apply sqrt_pos].
  - unfold np_mean in E. destruct (map f_sq _); discriminate.
  - unfold np_mean in E. destruct (map f_sq _); discriminate.
Qed.

Lemma valid_entries_repeat (g : grid R) (c : R) (n : nat) :
  flatten g = repeat (Fin c) n -> finite_of g = repeat c n.
Proof.
  intros Hg. rewrite finite_of_valid_entries. unfold valid_entries.
  rewrite Hg. clear Hg. induction n as [|n IH]; simpl; [reflexivity|].
  rewrite IH. reflexivity.
Qed.

Lemma R_mean_repeat (c : R) (n : nat) :
  (0 < n)%nat -> f_mean (repeat c n) = c.
Proof.
  intros Hn. unfold f_mean, f_of_nat. cbn [f_div f_of_Z R_ops].
  rewrite R_f_sum, Rsum_repeat, repeat_length.
  pose proof (R_of_nat_pos Hn). field. lra.
Qed.

Lemma R_std_repeat (c : R) (n : nat) :
  (0 < n)%nat -> f_std (repeat c n) = 0.
Proof.
  intros Hn. unfold f_std, f_var. rewrite (R_mean_repeat c Hn).
  rewrite R_mean_zeros; [apply sqrt_0|].
  intros v Hv. apply in_map_iff in Hv. destruct Hv as [w [<- Hw]].
  apply repeat_spec in Hw. subst w. unfold f_sq.
  cbn [f_mul f_sub R_ops]. lra.
Qed.


Lemma positive_keep_mask (cells : list (fval R)) :
  (forall x, In (Fin x) cells -> 0 < x) ->
  mask_and (map isfinite cells)
           (map (fun v => fv_ltb (Fin (f_of_Z 0)) v) cells)
  = map isfinite cells.
Proof.
  unfold mask_and. induction cells as [|v cells IH]; intros Hpos;
    [reflexivity|].
  cbn [map combine fst snd].
  rewrite IH by (intros x Hx; apply Hpos; right; exact Hx).
  f_equal. destruct v as [x| | |]; try reflexivity.
  cbn [isfinite fv_ltb f_ltb f_of_Z R_ops andb].
  apply R_ltb_true, Hpos. left. reflexivity.
Qed.

Lemma Rsum_nonneg (l : list R) : (forall v, In v l -> 0 < v) -> 0 <= Rsum l.
Proof.
  induction l as [|x l IH]; intros Hl; [simpl; lra|].
  change (Rsum (x :: l)) with (x + Rsum l).
  pose proof (Hl x (or_introl eq_refl)).
  pose proof (IH (fun v Hv => Hl v (or_intror Hv))). lra.
Qed.

(** X17. On a grid whose finite cells are all positive - as every
    linear-domain grid of [load_raster] is - the [calc_cv] of
    [_analyze_extended.py] and the [calculate_cv] of [_analyze.py]
    agree (exact arithmetic): dropping the non-positive cells and the
    absolute value of the mean then change nothing. *)
Theorem calc_cv_agrees (g : grid R) :
  (forall x, In (Fin x) (flatten g) -> 0 < x) ->
  calc_cv g = calculate_cv g.
Proof.
  intros Hpos. unfold calc_cv, calculate_cv.
  rewrite (positive_keep_mask _ Hpos). fold (finite_of g).
  destruct (length (finite_of g) =? 0)%nat eqn:E0; [reflexivity|].
  f_equal. f_equal.
  assert (Hd : forall v, In v (finite_of g) -> 0 < v).
  { intros v Hv. rewrite finite_of_valid_entries in Hv.
    unfold valid_entries in Hv. apply in_flat_map in Hv.
    destruct Hv as [w [Hw Hv]]. destruct w; simpl in Hv; try contradiction.
    destruct Hv as [<-|[]]. apply Hpos, Hw. }
  destruct (finite_of g) as [|v l] eqn:Ed; [discriminate|].
  unfold np_mean. f_equal. cbn [f_abs R_ops]. symmetry.
  apply Rabs_pos_eq. unfold f_mean, f_of_nat. cbn [f_div f_of_Z R_ops].
  rewrite R_f_sum. apply Rmult_le_pos; [apply Rsum_nonneg, Hd|].
  apply Rlt_le, Rinv_0_lt_compat, R_of_nat_pos. simpl. lia.
Qed.
End ExactMetrics.

Lemma rmse_bias_self_witness :
  calculate_rmse [[Fin 2%R; NaN]] [[Fin 2%R; NaN]] = Fin 0%R /\
  calculate_bias [[Fin 2%R; NaN]] [[Fin 2%R; NaN]] = Fin 0%R.
Proof.
  apply (proj2 (rmse_bias_self [[Fin 2%R; NaN]])).
  unfold count. simpl. lia.
Defined.


Lemma calc_cv_agrees_witness :
  calc_cv [[Fin 1%R; NaN; Fin 3%R]] = calculate_cv [[Fin 1%R; NaN; Fin 3%R]].
Proof.
  apply calc_cv_agrees. intros x Hx. simpl in Hx.
  destruct Hx as [E|[E|[E|[]]]]; inversion E; lra.
Defined.

(** ** Exact arithmetic: regression on a straight line *)

Section ExactLine.
Local Open Scope R_scope.

Lemma Rsum_affine (a b : R) (x : list R) :
  Rsum (map (fun v => a * v + b) x)
  = a * Rsum x + IZR (Z.of_nat (length x)) * b.
Proof.
  induction x as [|v x IH].
  - simpl. ring.
  - change (Rsum (map (fun w => a * w + b) (v :: x)))
      with (a * v + b + Rsum (map (fun w => a * w + b) x)).
    change (Rsum (v :: x)) with (v + Rsum x).
    rewrite IH. cbn [length]. rewrite R_of_nat_succ. ring.
Qed.

Lemma R_mean_affine (a b : R) (x : list R) :
  x <> [] -> f_mean (map (fun v => a * v + b) x) = a * f_mean x + b.
Proof.
  intros Hx. unfold f_mean, f_of_nat. cbn [f_div f_of_Z R_ops].
  rewrite !R_f_sum, Rsum_affine, length_map.
  assert (0 < IZR (Z.of_nat (length x)))
    by (apply R_of_nat_pos; destruct x; [congruence | simpl; lia]).
  field. lra.
Qed.

Lemma centered_affine (a b : R) (x : list R) :
  x <> [] ->
  centered (map (fun v => a * v + b) x) = map (Rmult a) (centered x).
Proof.
  intros Hx. unfold centered. rewrite (R_mean_affine a b Hx), !map_map.
  apply map_ext. intros v. cbn [f_sub R_ops]. ring.
Qed.

Lemma R_f_dot_scale (a : R) (l : list R) :
  f_dot l (map (Rmult a) l) = a * Rsum (map (fun v => v * v) l).
Proof.
  unfold f_dot. rewrite R_f_sum.
  induction l as [|v l IH]; [simpl; ring|].
  cbn [map combine fst snd].
  change (Rsum (?h :: ?t)) with (h + Rsum t).
  rewrite IH.
  change (Rsum (?h :: ?t)) with (h + Rsum t).
  cbn [f_mul R_ops]. ring.
Qed.

Lemma Rsum_sq_scale (a : R) (l : list R) :
  Rsum (map (fun v => v * v) (map (Rmult a) l))
  = a * a * Rsum (map (fun v => v * v) l).
Proof.
  induction l as [|v l IH]; [simpl; ring|].
  cbn [map]. change (Rsum (?h :: ?t)) with (h + Rsum t).
  rewrite IH. change (Rsum (?h :: ?t)) with (h + Rsum t). ring.
Qed.

Lemma is_constant_false (x : list R) :
  is_constant x = false -> exists v, In v x /\ v <> f_mean x.
Proof.
  destruct x as [|x0 t]; [discriminate|]. unfold is_constant.
  intros Hc.
  assert (Hv : exists v, In v (x0 :: t) /\ v <> x0).
  { revert Hc. generalize (x0 :: t). intros l.
    induction l as [|w l IH]; [discriminate|].
    cbn [forallb f_eqb R_ops]. unfold R_eqb at 1.
    destruct (Req_dec_T w x0) as [E|E].
    - cbn [andb]. intros Hl. destruct (IH Hl) as [v [Hv Hne]].
      exists v. split; [right; exact Hv | exact Hne].
    - intros _. exists w. split; [left; reflexivity | exact E]. }
  destruct Hv as [v [Hv Hne]].
  destruct (Req_dec_T x0 (f_mean (x0 :: t))) as [E|E].
  - exists v. split; [exact Hv | congruence].
  - exists x0. split; [left; reflexivity | exact E].
Qed.

(** Least squares on points of a line with non-constant abscissae. *)
Lemma linregress_exact_line (a b : R) (x : list R) :
  is_constant x = false ->
  exists r,
    linregress x (map (fun v => a * v + b) x) = Some (a, b, r) /\
    r * r = if Req_dec_T a 0 then 0 else 1.
Proof.
  intros Hc. destruct (is_constant_false x Hc) as [v [Hv Hne]].
  assert (Hx : x <> []) by (destruct x; [destruct Hv | discriminate]).
  set (S := Rsum (map (fun w => w * w) (centered x))).
  set (N := IZR (Z.of_nat (length x))).
  assert (HN : 0 < N)
    by (apply R_of_nat_pos; destruct x; [congruence | simpl; lia]).
  assert (HS : 0 < S).
  { apply Rsum_sq_pos. exists (v - f_mean x). split; [|lra].
    unfold centered. apply in_map_iff. exists v. auto. }
  assert (Exx : cov0 x x = S * (1 / N)).
  { unfold cov0. rewrite R_f_dot_self. reflexivity. }
  assert (Exy : cov0 x (map (fun w => a * w + b) x) = a * S * (1 / N)).
  { unfold cov0. rewrite (centered_affine a b Hx), R_f_dot_scale.
    reflexivity. }
  assert (Eyy : cov0 (map (fun w => a * w + b) x) (map (fun w => a * w + b) x)
                = a * a * S * (1 / N)).
  { unfold cov0. rewrite (centered_affine a b Hx), R_f_dot_self,
      Rsum_sq_scale, length_map. reflexivity. }
  assert (Ht : 0 < S * (1 / N)).
  { apply Rmult_lt_0_compat; [exact HS|]. apply Rdiv_lt_0_compat; lra. }
  unfold linregress. rewrite Hc, Exx, Exy, Eyy.
  cbn [f_eqb f_div f_mul f_sub f_sqrt f_of_Z R_ops].
  rewrite (R_mean_affine a b Hx).
  replace (a * S * (1 / N) / (S * (1 / N))) with a by (field; lra).
  replace (a * f_mean x + b - a * f_mean x) with b by ring.
  rewrite (R_eqb_false (x := S * (1 / N)) (y := 0)) by lra.
  cbn [orb]. eexists. split; [reflexivity|].
  destruct (Req_dec_T a 0) as [Ea|Ea].
  - subst a. replace (0 * 0 * S * (1 / N)) with 0 by ring.
    rewrite R_eqb_true. cbn [f_of_Z R_ops]. ring.
  - assert (Hyy : a * a * S * (1 / N) <> 0).
    { replace (a * a * S * (1 / N)) with (a * a * (S * (1 / N))) by ring.
      apply Rmult_integral_contrapositive. split; [|lra].
      apply Rmult_integral_contrapositive. auto. }
    rewrite (R_eqb_false Hyy).
    replace (S * (1 / N) * (a * a * S * (1 / N)))
      with (Rsqr (a * (S * (1 / N)))) by (unfold Rsqr; ring).
    rewrite sqrt_Rsqr_abs, Rabs_mult, (Rabs_right (S * (1 / N))) by lra.
    destruct (Rlt_dec a 0) as [Hneg|Hpos].
    + rewrite (Rabs_left a Hneg).
      replace (a * S * (1 / N) / (- a * (S * (1 / N)))) with (-1)
        by (field; lra).
      unfold fv_clip. cbn [f_ltb R_ops].
      rewrite (R_ltb_false (x := -1) (y := -1)) by lra.
      rewrite (R_ltb_false (x := 1) (y := -1)) by lra.
      cbn [fin_val]. ring.
    + assert (0 < a) by lra. rewrite (Rabs_right a) by lra.
      replace (a * S * (1 / N) / (a * (S * (1 / N)))) with 1
        by (field; lra).
      unfold fv_clip. cbn [f_ltb R_ops].
      rewrite (R_ltb_false (x := 1) (y := -1)) by lra.
      rewrite (R_ltb_false (x := 1) (y := 1)) by lra.
      cbn [fin_val]. ring.
Qed.


Lemma R_keep_sample (b l : R) :
  15 <= l <= 60 -> -40 < b < 5 ->
  spec_keep_sample (Fin b, Fin l) = true.
Proof.
  intros Hl Hb. unfold spec_keep_sample.
  cbn [fst snd isfinite fv_leb fv_ltb andb].
  assert (Hle : forall x y : R, x <= y -> f_leb x y = true).
  { intros x y Hxy. unfold f_leb. cbn [f_ltb f_eqb R_ops].
    unfold R_ltb, R_eqb.
    destruct (Rlt_dec x y); [reflexivity|].
    destruct (Req_dec_T x y); [reflexivity|lra]. }
  cbn [f_of_Z R_ops]. rewrite !Hle by lra. cbn [f_ltb R_ops].
  rewrite (R_ltb_true (x := -40) (y := b)) by lra.
  rewrite (R_ltb_true (x := b) (y := 5)) by lra.
  reflexivity.
Qed.

Lemma filter_keeps_all (A : Type) (f : A -> bool) (l : list A) :
  (forall x, In x l -> f x = true) -> List.filter f l = l.
Proof.
  induction l as [|x l IH]; intros H; [reflexivity|].
  cbn [List.filter]. rewrite (H x (or_introl eq_refl)).
  rewrite IH; [reflexivity|]. intros y Hy. apply H. right. exact Hy.
Qed.

Lemma two_groups_pairs (A : Type) (u v w z : A) :
  combine (concat [repeat u 10 ++ repeat v 10])
          (concat [repeat w 10 ++ repeat z 10])
  = repeat (u, w) 10 ++ repeat (v, z) 10.
Proof. reflexivity. Qed.

End ExactLine.
